(** * kcidb.misc: notification identity, validation and rendering

    A shallow embedding of [kcidb/misc.py] (the Firestore-id validator, the
    [NotificationMessage] and [Notification] classes) together with the
    parts of the Python runtime these functions call: UTF-8 [str.encode] /
    [bytes.decode], [base64.b64encode] / [base64.b64decode] with alternative
    characters, and [re.fullmatch] for the two module-level patterns. *)

From Stdlib Require Import List NArith ZArith Bool Lia String Ascii.
From Stdlib Require Import Strings.Byte.
From Stdlib Require Import Sorting.Permutation Sorting.Sorted.
Import ListNotations.

#[local] Open Scope N_scope.

(* Let [lia] reason about division and remainder by constants. *)
Ltac Zify.zify_post_hook ::= Z.to_euclidean_division_equations.

(** ** Python exceptions and results *)

Inductive exn : Type :=
| AssertionError
| AttributeError
| TypeError
| UnicodeError
| ValueError.

Inductive result (A : Type) : Type :=
| Ok (a : A)
| Raise (e : exn).

Arguments Ok {A} a.
Arguments Raise {A} e.

Definition bind {A B} (m : result A) (k : A -> result B) : result B :=
  match m with
  | Ok a => k a
  | Raise e => Raise e
  end.

Declare Scope py_scope.
Delimit Scope py_scope with py.
Notation "x <- m ;; k" := (bind m (fun x => k))
  (at level 61, m at next level, right associativity) : py_scope.
Notation "m ;; k" := (bind m (fun _ => k))
  (at level 61, right associativity) : py_scope.
#[local] Open Scope py_scope.

(** [assert cond] *)
Definition assert_ (cond : bool) : result unit :=
  if cond then Ok tt else Raise AssertionError.

(** [try: body  except e: handler] *)
Definition exn_eqb (a b : exn) : bool :=
  match a, b with
  | AssertionError, AssertionError
  | AttributeError, AttributeError
  | TypeError, TypeError
  | UnicodeError, UnicodeError
  | ValueError, ValueError => true
  | _, _ => false
  end.

Definition try_except {A} (body : result A) (e : exn) (handler : result A)
  : result A :=
  match body with
  | Ok a => Ok a
  | Raise e' => if exn_eqb e' e then handler else Raise e'
  end.

(** Short-circuiting [a and b] on conditions whose evaluation may raise. *)
Definition and_ (a b : result bool) : result bool :=
  x <- a ;; if x then b else Ok false.
Infix "&&&" := and_ (at level 40, left associativity) : py_scope.

(** ** Strings and bytes

    A Python [str] is a sequence of code points; a lone surrogate is a legal
    element of a [str] (and is what makes [str.encode] raise).  A [bytes]
    object is a sequence of octets. *)

Definition str : Type := list N.
Definition bytes : Type := list byte.

Definition byte_of_N (n : N) : byte :=
  match Byte.of_N n with
  | Some b => b
  | None => x00
  end.

(** ASCII literals. *)
Definition lit (s : string) : str :=
  List.map N_of_ascii (list_ascii_of_string s).
Definition blit (s : string) : bytes :=
  List.map byte_of_ascii (list_ascii_of_string s).

Definition str_eqb (a b : str) : bool :=
  if list_eq_dec N.eq_dec a b then true else false.

Fixpoint startswith (s prefix : str) {struct prefix} : bool :=
  match prefix, s with
  | [], _ => true
  | p :: prefix', c :: s' => (c =? p) && startswith s' prefix'
  | _ :: _, [] => false
  end.

Definition endswith (s suffix : str) : bool :=
  startswith (rev s) (rev suffix).

(** [sub in s] for strings: substring search. *)
Fixpoint contains (sub s : str) : bool :=
  startswith s sub ||
  match s with
  | [] => false
  | _ :: s' => contains sub s'
  end.

(** [sep.join(parts)] *)
Fixpoint join (sep : str) (parts : list str) : str :=
  match parts with
  | [] => []
  | [p] => p
  | p :: ps => p ++ sep ++ join sep ps
  end.

(** ** UTF-8 ([str.encode()] and [bytes.decode()] with the default codec) *)

Module Utf8.

Definition is_surrogate (c : N) : bool := (0xD800 <=? c) && (c <=? 0xDFFF).

(** A Unicode scalar value: what the codec can encode. *)
Definition scalar (c : N) : bool := (c <=? 0x10FFFF) && negb (is_surrogate c).

Definition encode_cp (c : N) : option bytes :=
  if c <? 0x80 then Some [byte_of_N c]
  else if c <? 0x800 then
    Some [byte_of_N (0xC0 + c / 64); byte_of_N (0x80 + c mod 64)]
  else if c <? 0x10000 then
    if is_surrogate c then None
    else Some [byte_of_N (0xE0 + c / 4096);
               byte_of_N (0x80 + (c / 64) mod 64);
               byte_of_N (0x80 + c mod 64)]
  else if c <=? 0x10FFFF then
    Some [byte_of_N (0xF0 + c / 262144);
          byte_of_N (0x80 + (c / 4096) mod 64);
          byte_of_N (0x80 + (c / 64) mod 64);
          byte_of_N (0x80 + c mod 64)]
  else None.

Fixpoint encode (s : str) : option bytes :=
  match s with
  | [] => Some []
  | c :: s' =>
      match encode_cp c, encode s' with
      | Some b, Some bs => Some (b ++ bs)
      | _, _ => None
      end
  end.

(** A continuation byte 10xxxxxx yields its six payload bits. *)
Definition cont (b : byte) : option N :=
  let n := Byte.to_N b in
  if (0x80 <=? n) && (n <? 0xC0) then Some (n - 0x80) else None.

(** Strict decoding: truncated sequences, stray continuation bytes,
    overlong forms, surrogates and values above U+10FFFF are errors. *)
Fixpoint decode (bs : bytes) : option str :=
  match bs with
  | [] => Some []
  | b0 :: r0 =>
      let n0 := Byte.to_N b0 in
      if n0 <? 0x80 then option_map (cons n0) (decode r0)
      else if n0 <? 0xC0 then None
      else if n0 <? 0xE0 then
        match r0 with
        | b1 :: r1 =>
            match cont b1 with
            | Some n1 =>
                let c := (n0 - 0xC0) * 64 + n1 in
                if 0x80 <=? c then option_map (cons c) (decode r1) else None
            | None => None
            end
        | _ => None
        end
      else if n0 <? 0xF0 then
        match r0 with
        | b1 :: b2 :: r2 =>
            match cont b1, cont b2 with
            | Some n1, Some n2 =>
                let c := (n0 - 0xE0) * 4096 + n1 * 64 + n2 in
                if (0x800 <=? c) && negb (is_surrogate c)
                then option_map (cons c) (decode r2) else None
            | _, _ => None
            end
        | _ => None
        end
      else if n0 <? 0xF8 then
        match r0 with
        | b1 :: b2 :: b3 :: r3 =>
            match cont b1, cont b2, cont b3 with
            | Some n1, Some n2, Some n3 =>
                let c := (n0 - 0xF0) * 262144 + n1 * 4096 + n2 * 64 + n3 in
                if (0x10000 <=? c) && (c <=? 0x10FFFF)
                then option_map (cons c) (decode r3) else None
            | _, _, _ => None
            end
        | _ => None
        end
      else None
  end.

End Utf8.

(** ** Base64 ([binascii] and [base64]) *)

Module Base64.

(** The standard alphabet: index to character and back. *)
Definition enc (n : N) : byte :=
  byte_of_N (if n <? 26 then 65 + n
             else if n <? 52 then 71 + n
             else if n <? 62 then n - 4
             else if n =? 62 then 43
             else 47).

Definition dec (c : byte) : option N :=
  let n := Byte.to_N c in
  if (65 <=? n) && (n <=? 90) then Some (n - 65)
  else if (97 <=? n) && (n <=? 122) then Some (n - 71)
  else if (48 <=? n) && (n <=? 57) then Some (n + 4)
  else if n =? 43 then Some 62
  else if n =? 47 then Some 63
  else None.

Definition pad : byte := "=".

Definition is_pad (c : byte) : bool := Byte.eqb c pad.

(** [binascii.b2a_base64(data, newline=False)] *)
Fixpoint b2a_base64 (bs : bytes) : bytes :=
  match bs with
  | [] => []
  | [a] =>
      let a := Byte.to_N a in
      [enc (a / 4); enc ((a mod 4) * 16); pad; pad]
  | [a; b] =>
      let a := Byte.to_N a in
      let b := Byte.to_N b in
      [enc (a / 4); enc ((a mod 4) * 16 + b / 16); enc ((b mod 16) * 4); pad]
  | a :: b :: c :: rest =>
      let a := Byte.to_N a in
      let b := Byte.to_N b in
      let c := Byte.to_N c in
      enc (a / 4) :: enc ((a mod 4) * 16 + b / 16)
        :: enc ((b mod 16) * 4 + c / 64) :: enc (c mod 64)
        :: b2a_base64 rest
  end.

(** [binascii.a2b_base64(data, strict_mode=True)], the decoder behind
    [base64.b64decode(.., validate=True)] (CPython 3.11 and later): its
    loop over the characters, with the position in the current quadruple,
    the bits left from the previous character, the pad characters counted
    in this quadruple, whether padding has started, and the bytes written
    so far.  A pad character completing a quadruple ends the decoding (and
    nothing may follow it); other pad characters are passed over; a
    character outside the alphabet, or an alphabet character after a pad,
    is an error, and so is an incomplete quadruple at the end. *)
Fixpoint a2b_loop (cs : bytes) (quad_pos : nat) (leftchar : N) (pads : nat)
    (padding_started : bool) (out : bytes) : option bytes :=
  match cs with
  | [] =>
      match quad_pos with
      | O => Some out
      | S _ => None
      end
  | c :: cs' =>
      if is_pad c then
        if Nat.leb 2 quad_pos && Nat.leb 4 (quad_pos + S pads) then
          match cs' with
          | [] => Some out
          | _ :: _ => None
          end
        else
          a2b_loop cs' quad_pos leftchar
            (if Nat.leb 2 quad_pos then S pads else pads) true out
      else
        match dec c with
        | None => None
        | Some this_ch =>
            if padding_started then None
            else
              match quad_pos with
              | 0%nat => a2b_loop cs' 1 this_ch 0 false out
              | 1%nat =>
                  a2b_loop cs' 2 (this_ch mod 16) 0 false
                    (out ++ [byte_of_N (leftchar * 4 + this_ch / 16)])
              | 2%nat =>
                  a2b_loop cs' 3 (this_ch mod 4) 0 false
                    (out ++ [byte_of_N (leftchar * 16 + this_ch / 4)])
              | _ =>
                  a2b_loop cs' 0 0 0 false
                    (out ++ [byte_of_N (leftchar * 64 + this_ch)])
              end
        end
  end.

(** A leading pad character is refused before the loop starts. *)
Definition a2b_base64 (cs : bytes) : option bytes :=
  match cs with
  | c :: _ => if is_pad c then None else a2b_loop cs 0 0 0 false []
  | [] => a2b_loop cs 0 0 0 false []
  end.

(** [bytes.maketrans(frm, to)]: a later entry of the table overrides an
    earlier one for the same source byte. *)
Fixpoint maketrans (frm to : bytes) (c : byte) : option byte :=
  match frm, to with
  | f :: frm', t :: to' =>
      match maketrans frm' to' c with
      | Some t' => Some t'
      | None => if Byte.eqb f c then Some t else None
      end
  | _, _ => None
  end.

(** [s.translate(bytes.maketrans(frm, to))] *)
Definition translate1 (frm to : bytes) (c : byte) : byte :=
  match maketrans frm to c with
  | Some t => t
  | None => c
  end.

Definition translate (frm to : bytes) (s : bytes) : bytes :=
  List.map (translate1 frm to) s.

(** The two characters of the standard alphabet that [altchars] replaces,
    and the replacement this module uses. *)
Definition std : bytes := blit "+/".
Definition alt : bytes := blit "+-".

(** [base64.b64encode(s, altchars)] *)
Definition b64encode (s : bytes) (altchars : bytes) : bytes :=
  translate std altchars (b2a_base64 s).

(** [base64.b64decode(s, altchars, validate=True)] on a bytes argument. *)
Definition b64decode_bytes (s : bytes) (altchars : bytes) : result bytes :=
  match a2b_base64 (translate altchars std s) with
  | Some b => Ok b
  | None => Raise ValueError
  end.

End Base64.

(** ** Regular expressions ([re.compile(...).fullmatch]) *)

Module Re.

Inductive re : Type :=
| Empty
| Eps
| Class (p : N -> bool)
| Cat (r1 r2 : re)
| Alt (r1 r2 : re)
| Star (r : re).

(** [r?] *)
Definition Opt (r : re) : re := Alt r Eps.

Fixpoint nullable (r : re) : bool :=
  match r with
  | Empty => false
  | Eps => true
  | Class _ => false
  | Cat r1 r2 => nullable r1 && nullable r2
  | Alt r1 r2 => nullable r1 || nullable r2
  | Star _ => true
  end.

Fixpoint deriv (c : N) (r : re) : re :=
  match r with
  | Empty => Empty
  | Eps => Empty
  | Class p => if p c then Eps else Empty
  | Cat r1 r2 =>
      if nullable r1 then Alt (Cat (deriv c r1) r2) (deriv c r2)
      else Cat (deriv c r1) r2
  | Alt r1 r2 => Alt (deriv c r1) (deriv c r2)
  | Star r1 => Cat (deriv c r1) (Star r1)
  end.

(** Whether the whole string belongs to the language of the pattern. *)
Fixpoint fullmatch (r : re) (s : str) : bool :=
  match s with
  | [] => nullable r
  | c :: s' => fullmatch (deriv c r) s'
  end.

Definition range (lo hi : N) (c : N) : bool := (lo <=? c) && (c <=? hi).

End Re.

(** [[^\x00-\x1f\x7f]] *)
Definition not_control (c : N) : bool :=
  negb (Re.range 0x00 0x1f c || (c =? 0x7f)).

(** [[A-Za-z0-9]] *)
Definition alnum (c : N) : bool :=
  Re.range 65 90 c || Re.range 97 122 c || Re.range 48 57 c.

(** [[A-Za-z0-9_]] *)
Definition alnum_ (c : N) : bool :=
  Re.range 65 90 c || Re.range 97 122 c || Re.range 48 57 c || (c =? 95).

(** The characters of an encoded id part: letters, digits, ["+"], ["-"]
    and the pad character ["="]. *)
Definition idchar (c : N) : bool :=
  alnum c || (c =? 43) || (c =? 45) || (c =? 61).

(** A regex matching permitted notification message summary strings *)
Definition NOTIFICATION_MESSAGE_SUMMARY_RE : Re.re :=
  Re.Star (Re.Class not_control).

(** A regex matching permitted subscription name strings *)
Definition SUBSCRIPTION_RE : Re.re :=
  Re.Opt (Re.Cat (Re.Class alnum) (Re.Star (Re.Class alnum_))).


(** ** Python values *)

(** Modelled from the spec: [kcidb.oo.Node] is defined outside this module;
    the spec (sections 3 and 6) describes a domain node as any object
    exposing [id: string], [summarize() -> string] and
    [describe() -> string].  The two methods are represented by the strings
    they return. *)
Record Node : Type := mkNode {
  node_id : str;
  node_summarize : str;
  node_describe : str
}.

(** The values the functions of this module are called with.  The
    attributes of a [NotificationMessage] instance hold whatever
    [__init__] stored in them. *)
#[warnings="-register-all"]
Inductive value : Type :=
| VNone
| VInt (z : Z)
| VStr (s : str)
| VBytes (b : bytes)
| VList (l : list value)
| VNode (n : Node)
| VMessage (m : NotificationMessage)
with NotificationMessage : Type :=
| mkNotificationMessage (recipients summary description id : value).

Definition recipients (m : NotificationMessage) : value :=
  let (r, _, _, _) := m in r.
Definition summary (m : NotificationMessage) : value :=
  let (_, s, _, _) := m in s.
Definition description (m : NotificationMessage) : value :=
  let (_, _, d, _) := m in d.
Definition id (m : NotificationMessage) : value :=
  let (_, _, _, i) := m in i.

Inductive class : Type :=
| Cstr
| Clist
| CNode
| CNotificationMessage.

Definition isinstance (v : value) (c : class) : bool :=
  match v, c with
  | VStr _, Cstr => true
  | VList _, Clist => true
  | VNode _, CNode => true
  | VMessage _, CNotificationMessage => true
  | _, _ => false
  end.

(** Truth value of an object, as tested by [assert obj]. *)
Definition truthy (v : value) : bool :=
  match v with
  | VNone => false
  | VInt z => negb (Z.eqb z 0)
  | VStr s => negb (Nat.eqb (List.length s) 0)
  | VBytes b => negb (Nat.eqb (List.length b) 0)
  | VList l => negb (Nat.eqb (List.length l) 0)
  | VNode _ => true
  | VMessage _ => true
  end.

(** [iter(v)]: the elements a [for] clause visits. *)
Definition iter (v : value) : result (list value) :=
  match v with
  | VList l => Ok l
  | VStr s => Ok (List.map (fun c => VStr [c]) s)
  | VBytes b => Ok (List.map (fun c => VInt (Z.of_N (Byte.to_N c))) b)
  | _ => Raise TypeError
  end.

(** [v.encode()]: only [str] has the method. *)
Definition encode (v : value) : result bytes :=
  match v with
  | VStr s =>
      match Utf8.encode s with
      | Some b => Ok b
      | None => Raise UnicodeError
      end
  | _ => Raise AttributeError
  end.

(** [b.decode()] on a bytes object. *)
Definition decode (b : bytes) : result value :=
  match Utf8.decode b with
  | Some s => Ok (VStr s)
  | None => Raise UnicodeError
  end.

(** [len(b)] *)
Definition len {A} (l : list A) : N := N.of_nat (List.length l).

(** [a + b] *)
Definition add (a b : value) : result value :=
  match a, b with
  | VStr x, VStr y => Ok (VStr (x ++ y))
  | VBytes x, VBytes y => Ok (VBytes (x ++ y))
  | VList x, VList y => Ok (VList (x ++ y))
  | VInt x, VInt y => Ok (VInt (x + y))
  | _, _ => Raise TypeError
  end.

(** [pattern.fullmatch(v)], as the truth value of the returned match. *)
Definition re_fullmatch (r : Re.re) (v : value) : result bool :=
  match v with
  | VStr s => Ok (Re.fullmatch r s)
  | _ => Raise TypeError
  end.

(** [v.id], [v.summary], [v.description], [v.recipients] *)
Definition attr_id (v : value) : result value :=
  match v with
  | VNode n => Ok (VStr (node_id n))
  | VMessage m => Ok (id m)
  | _ => Raise AttributeError
  end.






(** [sep.join(v)]: every element of the iterable must be a [str]. *)
Fixpoint strs (l : list value) : option (list str) :=
  match l with
  | [] => Some []
  | VStr s :: l' => option_map (cons s) (strs l')
  | _ :: _ => None
  end.


(** [base64.b64encode(s, altchars)] and
    [base64.b64decode(s, altchars, validate=True)]; the latter also takes an
    ASCII-only [str]. *)
Definition b64encode (s : bytes) (altchars : bytes) : bytes :=
  Base64.b64encode s altchars.

Definition ascii_bytes (s : str) : option bytes :=
  if forallb (fun c => c <? 0x80) s then Some (List.map byte_of_N s) else None.

Definition b64decode (s : value) (altchars : bytes) : result bytes :=
  match s with
  | VBytes b => Base64.b64decode_bytes b altchars
  | VStr t =>
      match ascii_bytes t with
      | Some b => Base64.b64decode_bytes b altchars
      | None => Raise ValueError
      end
  | _ => Raise TypeError
  end.

(** The UTF-8 encoding of [s] exists and has at most [n] bytes: the form
    of the length preconditions of the two constructors. *)
Definition utf8_fits (n : nat) (s : str) : bool :=
  match Utf8.encode s with
  | Some b => Nat.leb (List.length b) n
  | None => false
  end.

(** The rules of section 4.2 on a string, as one condition. *)
Definition firestore_ok (s : str) : bool :=
  match Utf8.encode s with
  | Some b =>
      (len b <=? 1500) && negb (str_eqb s (lit "."))
      && negb (str_eqb s (lit "..")) && negb (contains (lit "/") s)
      && negb (startswith s (lit "__") && endswith s (lit "__"))
  | None => false
  end.

(** The encoded form of the UTF-8 bytes of an id part, and the composite
    id of section 4.4:
    [subscription + ":" + objectListName + ":" + encodePart(object.id)
     + ":" + encodePart(message.id)]. *)
Definition id_part (b : bytes) : str :=
  List.map Byte.to_N (Base64.b64encode b Base64.alt).

Definition composite (subscription obj_list_name : str) (obj_id message_id : bytes)
  : str :=
  subscription ++ lit ":" ++ obj_list_name ++ lit ":"
    ++ id_part obj_id ++ lit ":" ++ id_part message_id.

(** Whether a composite id passes the final assertion, read off the
    arguments: no ["/"] in the object list name, and at most 1500 bytes
    for the subscription, the name, the two encoded ids (four characters
    for every three bytes, rounded up) and the three colons. *)
Definition composite_fits (subscription obj_list_name : str)
    (name_bytes obj_id message_id : bytes) : bool :=
  negb (contains (lit "/") obj_list_name)
  && Nat.leb (List.length subscription + List.length name_bytes
              + 4 * ((List.length obj_id + 2) / 3)
              + 4 * ((List.length message_id + 2) / 3) + 3) 1500.

(** ** [is_valid_firestore_id] *)

(** Check if a value is valid for use as a Google Firestore collection or
    document ID. *)
Definition is_valid_firestore_id (value : value) : result bool :=
  try_except
    (Ok (isinstance value Cstr) &&&
     (b <- encode value ;; Ok (len b <=? 1500)) &&&
     match value with
     | VStr s =>
         Ok (negb (str_eqb s (lit ".")))
         &&& Ok (negb (str_eqb s (lit "..")))
         &&& Ok (negb (contains (lit "/") s))
         &&& Ok (negb (startswith s (lit "__") && endswith s (lit "__")))
     | _ => Raise TypeError
     end)
    UnicodeError (Ok false).

(** ** [NotificationMessage] *)

Definition default (d : value) (arg : option value) : value :=
  match arg with
  | Some v => v
  | None => d
  end.

(** [NotificationMessage.__init__(self, recipients, summary="",
    description="", id="")]; an omitted argument is [None] here. *)
Definition NotificationMessage_init
    (recipients : value) (summary description id : option value)
  : result NotificationMessage :=
  let summary := default (VStr []) summary in
  let description := default (VStr []) description in
  let id := default (VStr []) id in
  assert_ (isinstance recipients Clist) ;;
  rs <- iter recipients ;;
  assert_ (forallb (fun r => isinstance r Cstr) rs) ;;
  assert_ (isinstance summary Cstr) ;;
  m <- re_fullmatch NOTIFICATION_MESSAGE_SUMMARY_RE summary ;;
  assert_ m ;;
  b <- encode summary ;;
  assert_ (len b <=? 256) ;;
  assert_ (isinstance description Cstr) ;;
  b <- encode id ;;
  assert_ (len b <=? 4096) ;;
  assert_ (isinstance id Cstr) ;;
  b <- encode id ;;
  assert_ (len b <=? 256) ;;
  Ok (mkNotificationMessage recipients summary description id).

(** ** [Notification] *)

Record Notification : Type := mkNotification {
  n_obj_list_name : value;
  n_obj : value;
  n_subscription : value;
  n_message : value;
  n_id : value
}.

(** [Notification._to_id_part(string)] *)
Definition _to_id_part (string : value) : result value :=
  b <- encode string ;;
  decode (b64encode b (blit "+-")).

(** [Notification._from_id_part(id_part)] *)
Definition _from_id_part (id_part : value) : result value :=
  b <- b64decode id_part (blit "+-") ;;
  decode b.

Section Schema.

(** The keys of [schema.LATEST.tree] of [kcidb.io], which is not part of
    this module: the names of the object lists of the I/O schema. *)
Variable tree : list str.

(** [v in schema.LATEST.tree] *)
Definition in_tree (v : value) : result bool :=
  match v with
  | VStr s => Ok (existsb (str_eqb s) tree)
  | VList _ => Raise TypeError
  | _ => Ok false
  end.

(** [Notification.__init__(self, obj_list_name, obj, subscription,
    message)] *)
Definition Notification_init (obj_list_name obj subscription message : value)
  : result Notification :=
  assert_ (isinstance obj_list_name Cstr) ;;
  assert_ (truthy obj_list_name) ;;
  k <- in_tree obj_list_name ;;
  assert_ k ;;
  assert_ (isinstance obj CNode) ;;
  assert_ (isinstance subscription Cstr) ;;
  m <- re_fullmatch SUBSCRIPTION_RE subscription ;;
  assert_ m ;;
  b <- encode subscription ;;
  assert_ (len b <=? 64) ;;
  assert_ (isinstance message CNotificationMessage) ;;
  t1 <- add subscription (VStr (lit ":")) ;;
  t2 <- add t1 obj_list_name ;;
  t3 <- add t2 (VStr (lit ":")) ;;
  obj_id <- attr_id obj ;;
  p1 <- _to_id_part obj_id ;;
  t4 <- add t3 p1 ;;
  t5 <- add t4 (VStr (lit ":")) ;;
  message_id <- attr_id message ;;
  p2 <- _to_id_part message_id ;;
  id <- add t5 p2 ;;
  v <- is_valid_firestore_id id ;;
  assert_ v ;;
  Ok (mkNotification obj_list_name obj subscription message id).

End Schema.

Section Email.

(** [email.message.EmailMessage] belongs to the Python library, not to this
    module: the messages, [EmailMessage()], [email[name] = value] and
    [email.set_content(value)].  The two methods change the message or
    raise; here they return the message as it is after the call.  Nothing
    is assumed of what the library stores or of which values it accepts. *)
Variable EmailMessage : Type.
Variable EmailMessage_new : EmailMessage.
Variable setitem : EmailMessage -> str -> value -> result EmailMessage.
Variable set_content : EmailMessage -> value -> result EmailMessage.


End Email.

(** ** [format_exception_stack] *)

(** [str.isspace] on one character: the characters [str.strip()] removes. *)
Definition isspace (c : N) : bool :=
  Re.range 0x09 0x0D c || Re.range 0x1C 0x20 c || (c =? 0x85) || (c =? 0xA0)
  || (c =? 0x1680) || Re.range 0x2000 0x200A c || (c =? 0x2028)
  || (c =? 0x2029) || (c =? 0x202F) || (c =? 0x205F) || (c =? 0x3000).

(** The line boundaries of [str.splitlines]; ["\r\n"] counts as one. *)
Definition linebreak (c : N) : bool :=
  Re.range 0x0A 0x0D c || Re.range 0x1C 0x1E c || (c =? 0x85)
  || (c =? 0x2028) || (c =? 0x2029).

Fixpoint lstrip (s : str) : str :=
  match s with
  | [] => []
  | c :: s' => if isspace c then lstrip s' else s
  end.

(** [s.strip()] *)
Definition strip (s : str) : str := rev (lstrip (rev (lstrip s))).

(** [text.splitlines(True)], with the line read so far in [cur]. *)
Fixpoint splitlines_from (cur text : str) : list str :=
  match text with
  | [] =>
      match cur with
      | [] => []
      | _ :: _ => [cur]
      end
  | c :: text' =>
      if c =? 0x0D then
        match text' with
        | d :: text'' =>
            if d =? 0x0A then (cur ++ [c; d]) :: splitlines_from [] text''
            else (cur ++ [c]) :: splitlines_from [] text'
        | [] => (cur ++ [c]) :: splitlines_from [] text'
        end
      else if linebreak c then (cur ++ [c]) :: splitlines_from [] text'
      else splitlines_from (cur ++ [c]) text'
  end.

Definition splitlines_keepends (text : str) : list str :=
  splitlines_from [] text.

(** [textwrap.indent(text, prefix)]: the prefix goes before every line
    that does not consist solely of whitespace. *)
Definition indent (text prefix : str) : str :=
  List.concat (List.map (fun line => if truthy (VStr (strip line))
                                then prefix ++ line else line)
            (splitlines_keepends text)).

(** An exception as [format_exception_stack] uses it: [str(exc)] and
    [exc.__context__]. *)
#[warnings="-register-all"]
Inductive exception : Type :=
| Exception (message : str) (context : option exception).

(** Format an exception's context stack as a series of indented messages.
    The [while True] loop, with [string] and [prefix] as its state. *)
Fixpoint format_exception_stack_loop (exc : exception) (string prefix : str)
  : str :=
  match exc with
  | Exception message context =>
      let string := string ++ indent message prefix in
      match context with
      | Some exc' =>
          format_exception_stack_loop exc' (string ++ lit ":" ++ [0x0A])
            (prefix ++ lit "  ")
      | None => string
      end
  end.

Definition format_exception_stack (exc : exception) : str :=
  format_exception_stack_loop exc [] [].

(** The messages of a context stack, outermost first. *)
Fixpoint messages (exc : exception) : list str :=
  match exc with
  | Exception message context =>
      message :: match context with
                 | Some exc' => messages exc'
                 | None => []
                 end
  end.

(** The layout the docstring describes, for one-line messages: message
    number [k] of the stack behind [2 * k] spaces, joined by [":\n"]. *)
Fixpoint indented (depth : nat) (msgs : list str) : list str :=
  match msgs with
  | [] => []
  | m :: msgs' => (repeat 0x20 (2 * depth) ++ m) :: indented (S depth) msgs'
  end.

(** ** [LOGGING_LEVEL_MAP] *)

(** A [dict] with string keys and integer values: its items in insertion
    order, one per key. *)
Definition dict : Type := list (str * Z).

(** [d[k] = v]: an existing key keeps its place. *)
Fixpoint dict_set (d : dict) (k : str) (v : Z) : dict :=
  match d with
  | [] => [(k, v)]
  | (k', v') :: d' =>
      if str_eqb k' k then (k', v) :: d' else (k', v') :: dict_set d' k v
  end.

(** [d.get(k)] *)
Fixpoint dict_get (d : dict) (k : str) : option Z :=
  match d with
  | [] => None
  | (k', v') :: d' => if str_eqb k' k then Some v' else dict_get d' k
  end.

(** [{k: v for k, v in items}] *)
Definition dict_of_items (items : list (str * Z)) : dict :=
  fold_left (fun d kv => dict_set d (fst kv) (snd kv)) items [].

(** [max(values)]: raises [ValueError] on an empty sequence. *)
Definition max_ (values : list Z) : result Z :=
  match values with
  | [] => Raise ValueError
  | v :: values' => Ok (fold_left Z.max values' v)
  end.

(** [sorted(items, key=lambda i: i[1], reverse=True)]: stable, so items
    with equal values keep their order. *)
Fixpoint insert_desc (x : str * Z) (l : list (str * Z)) : list (str * Z) :=
  match l with
  | [] => [x]
  | y :: l' =>
      if (snd x <? snd y)%Z then y :: insert_desc x l' else x :: l
  end.

Definition sorted_desc (items : list (str * Z)) : list (str * Z) :=
  fold_right insert_desc [] items.

(** [isinstance(v, int)] *)
Definition isinstance_int (v : value) : bool :=
  match v with
  | VInt _ => true
  | _ => false
  end.

Section Logging.

(** [str.isalpha] and [str.isupper], which read the Unicode character
    database, and the items of [logging.__dict__]: both belong to the
    Python runtime, not to this module. *)
Variable isalpha isupper : str -> bool.
Variable logging_dict : list (str * value).

(** The items the first comprehension keeps: names that are alphabetic and
    upper case, bound to a non-zero [int]. *)
Definition level_items : list (str * Z) :=
  flat_map (fun item : str * value =>
              let (name, value) := item in
              if isalpha name && isupper name && isinstance_int value
                 && truthy value
              then match value with
                   | VInt z => [(name, z)]
                   | _ => []
                   end
              else [])
    logging_dict.

(** A dictionary of names of logging levels and their values, with the
    level disabling all logging added, sorted highest to lowest. *)
Definition LOGGING_LEVEL_MAP : result dict :=
  let m := dict_of_items level_items in
  top <- max_ (List.map snd m) ;;
  let m := dict_set m (lit "NONE") (top + 1) in
  Ok (dict_of_items (sorted_desc m)).

End Logging.

(** [str.isalpha] and [str.isupper] restricted to ASCII strings, and the
    integer constants of the [logging] module among a few of its other
    attributes: an instance to run the definitions above on. *)
Definition ascii_isalpha (s : str) : bool :=
  negb (Nat.eqb (List.length s) 0)
  && forallb (fun c => Re.range 65 90 c || Re.range 97 122 c) s.

Definition ascii_isupper (s : str) : bool :=
  existsb (Re.range 65 90) s && negb (existsb (Re.range 97 122) s).

Definition logging_attributes : list (str * value) :=
  [(lit "CRITICAL", VInt 50); (lit "FATAL", VInt 50); (lit "ERROR", VInt 40);
   (lit "WARNING", VInt 30); (lit "WARN", VInt 30); (lit "INFO", VInt 20);
   (lit "DEBUG", VInt 10); (lit "NOTSET", VInt 0);
   (lit "BASIC_FORMAT", VStr (lit "%(levelname)s:%(name)s:%(message)s"));
   (lit "raiseExceptions", VInt 1); (lit "lastResort", VNone)].


(** * Properties *)

(** ** Bytes *)

Lemma to_N_byte_of_N (n : N) : n < 256 -> Byte.to_N (byte_of_N n) = n.
Proof.
  intros Hn. unfold byte_of_N.
  destruct (Byte.of_N n) as [b|] eqn:E.
  - now apply Byte.to_of_N.
  - apply Byte.of_N_None_iff in E. lia.
Qed.

Lemma byte_of_N_to_N (b : byte) : byte_of_N (Byte.to_N b) = b.
Proof. unfold byte_of_N. now rewrite Byte.of_to_N. Qed.

Lemma byte_of_N_eq (n : N) (b : byte) : n = Byte.to_N b -> byte_of_N n = b.
Proof. intros ->. apply byte_of_N_to_N. Qed.

Lemma to_N_lt (b : byte) : Byte.to_N b < 256.
Proof. pose proof (Byte.to_N_bounded b). lia. Qed.

Lemma byte_eqb_eq (a b : byte) : Byte.eqb a b = true <-> a = b.
Proof.
  split.
  - intros H. apply Byte.byte_dec_bl in H. exact H.
  - intros ->. apply Byte.byte_dec_lb. reflexivity.
Qed.


Lemma Some_inj {A} (x y : A) : Some x = Some y -> x = y.
Proof. now intros [= ->]. Qed.

(** Decide the comparisons left in a goal once their operands are known. *)
Ltac cmp :=
  repeat match goal with
    | |- context [?a <? ?b] => destruct (N.ltb_spec a b); try lia
    | |- context [?a <=? ?b] => destruct (N.leb_spec a b); try lia
    | |- context [?a =? ?b] => destruct (N.eqb_spec a b); try lia
    end;
  cbn [andb orb negb].

Lemma add_sub_l (a x : N) : a + x - a = x.
Proof. lia. Qed.

(** ** UTF-8 *)

Section Utf8Facts.
Import Utf8.

Lemma encode_cp_scalar (c : N) :
  scalar c = true <-> exists b, encode_cp c = Some b.
Proof.
  unfold scalar, encode_cp, is_surrogate. split.
  - intros H. cmp; simpl in *; try discriminate; eauto.
  - intros [b H]. revert H. cmp; simpl; try discriminate; reflexivity.
Qed.

Lemma encode_Some_iff (s : str) :
  forallb scalar s = true <-> exists b, encode s = Some b.
Proof.
  induction s as [|c s IH]; simpl.
  - split; eauto.
  - rewrite andb_true_iff, encode_cp_scalar, IH. split.
    + intros [[b Hb] [bs Hbs]]. rewrite Hb, Hbs. eauto.
    + intros [b H]. destruct (encode_cp c), (encode s); try discriminate.
      eauto.
Qed.

Lemma encode_app (s t : str) (a b : bytes) :
  encode s = Some a -> encode t = Some b -> encode (s ++ t) = Some (a ++ b).
Proof.
  revert a. induction s as [|c s IH]; simpl; intros a Ha Hb.
  - injection Ha as <-. exact Hb.
  - destruct (encode_cp c) as [x|]; [|discriminate].
    destruct (encode s) as [y|]; [|discriminate].
    injection Ha as <-. rewrite (IH y eq_refl Hb). now rewrite app_assoc.
Qed.

Lemma encode_app_inv (s t : str) (c : bytes) :
  encode (s ++ t) = Some c ->
  exists a b, encode s = Some a /\ encode t = Some b /\ c = a ++ b.
Proof.
  revert c. induction s as [|x s IH]; simpl; intros c H.
  - exists [], c. auto.
  - destruct (encode_cp x) as [bx|]; [|discriminate].
    destruct (encode (s ++ t)) as [y|] eqn:E; [|discriminate].
    destruct (IH y eq_refl) as (a & b & -> & -> & ->).
    injection H as <-. exists (bx ++ a), b. now rewrite app_assoc.
Qed.

(** Decoding undoes the encoding of one code point. *)
Lemma decode_encode_cp (c : N) (b rest : bytes) :
  encode_cp c = Some b ->
  decode (b ++ rest) = option_map (cons c) (decode rest).
Proof.
  unfold encode_cp, is_surrogate.
  destruct (N.ltb_spec c 0x80);
    [|destruct (N.ltb_spec c 0x800);
      [|destruct (N.ltb_spec c 0x10000);
        [destruct (N.leb_spec 0xD800 c);
           [destruct (N.leb_spec c 0xDFFF)|]
        |destruct (N.leb_spec c 0x10FFFF)]]];
    cbv iota; intros E; try discriminate; apply Some_inj in E; subst b;
    cbn [app decode]; unfold cont, is_surrogate;
    rewrite ?to_N_byte_of_N by lia.
  - cmp. reflexivity.
  - cmp. rewrite !add_sub_l.
    replace (c / 64 * 64 + c mod 64) with c by lia.
    cmp. reflexivity.
  - cmp. rewrite !add_sub_l.
    replace (c / 4096 * 4096 + (c / 64) mod 64 * 64 + c mod 64) with c by lia.
    cmp. reflexivity.
  - cmp. rewrite !add_sub_l.
    replace (c / 4096 * 4096 + (c / 64) mod 64 * 64 + c mod 64) with c by lia.
    cmp. reflexivity.
  - cmp. rewrite !add_sub_l.
    replace (c / 262144 * 262144 + (c / 4096) mod 64 * 4096
             + (c / 64) mod 64 * 64 + c mod 64) with c by lia.
    cmp. reflexivity.
Qed.

Lemma decode_encode (s : str) (b : bytes) :
  encode s = Some b -> decode b = Some s.
Proof.
  revert b. induction s as [|c s IH]; simpl; intros b H.
  - now injection H as <-.
  - destruct (encode_cp c) as [x|] eqn:Ec; [|discriminate].
    destruct (encode s) as [y|]; [|discriminate].
    injection H as <-. rewrite (decode_encode_cp c x y Ec).
    now rewrite (IH y eq_refl).
Qed.

End Utf8Facts.

Lemma decode_ascii (bs : bytes) :
  Forall (fun b => Byte.to_N b < 0x80) bs ->
  Utf8.decode bs = Some (List.map Byte.to_N bs).
Proof.
  induction 1 as [|b bs Hb _ IH]; [reflexivity|].
  cbn [Utf8.decode List.map]. cmp. now rewrite IH.
Qed.

Lemma encode_ascii (s : str) :
  Forall (fun c => c < 0x80) s ->
  Utf8.encode s = Some (List.map byte_of_N s).
Proof.
  induction 1 as [|c s Hc _ IH]; [reflexivity|].
  cbn [Utf8.encode List.map]. unfold Utf8.encode_cp. cmp. now rewrite IH.
Qed.

(** ** Base64 *)

Lemma below_64 (P : N -> bool) :
  forallb P (List.map N.of_nat (seq 0 64)) = true ->
  forall n, n < 64 -> P n = true.
Proof.
  intros H n Hn. rewrite forallb_forall in H. apply H.
  rewrite <- (N2Nat.id n). apply in_map. apply in_seq. lia.
Qed.

(** Induction over a byte string three octets at a time, the way the
    encoder consumes it. *)
Lemma list_ind3 {A} (P : list A -> Prop) :
  P [] ->
  (forall a, P [a]) ->
  (forall a b, P [a; b]) ->
  (forall a b c rest, P rest -> P (a :: b :: c :: rest)) ->
  forall l, P l.
Proof.
  intros H0 H1 H2 H3.
  assert (forall n l, (List.length l <= n)%nat -> P l) as Hn.
  { induction n as [|n IH]; intros l Hl.
    - destruct l; [exact H0 | simpl in Hl; lia].
    - destruct l as [|a [|b [|c rest]]]; auto.
      apply H3. apply IH. simpl in Hl. lia. }
  intros l. now apply (Hn (List.length l)).
Qed.

Section Base64Facts.
Import Base64.

Lemma dec_enc (n : N) : n < 64 -> dec (enc n) = Some n.
Proof.
  intros Hn.
  assert ((match dec (enc n) with Some m => m =? n | None => false end) = true)
    as H.
  { revert n Hn. apply below_64. vm_compute. reflexivity. }
  destruct (dec (enc n)) as [m|]; [|discriminate].
  apply N.eqb_eq in H. now subst.
Qed.

Lemma enc_not_pad (n : N) : n < 64 -> is_pad (enc n) = false.
Proof.
  intros Hn. apply negb_true_iff. revert n Hn.
  apply (below_64 (fun n => negb (is_pad (enc n)))). vm_compute. reflexivity.
Qed.

(** The sextets the encoder forms are alphabet indices. *)
Lemma sextets (a b c : byte) :
  let a := Byte.to_N a in
  let b := Byte.to_N b in
  let c := Byte.to_N c in
  a / 4 < 64 /\ (a mod 4) * 16 < 64 /\ (a mod 4) * 16 + b / 16 < 64 /\
  (b mod 16) * 4 < 64 /\ (b mod 16) * 4 + c / 64 < 64 /\ c mod 64 < 64.
Proof.
  pose proof (to_N_lt a). pose proof (to_N_lt b). pose proof (to_N_lt c).
  cbv zeta. repeat split; lia.
Qed.

Lemma b2a_base64_nil (bs : bytes) : b2a_base64 bs = [] -> bs = [].
Proof. destruct bs as [|a [|b [|c rest]]]; simpl; congruence. Qed.

(** One step of the decoding loop on an alphabet character. *)
Lemma a2b_loop_enc (n : N) (cs : bytes) (quad_pos : nat) (leftchar : N)
    (pads : nat) (out : bytes) :
  n < 64 ->
  a2b_loop (enc n :: cs) quad_pos leftchar pads false out =
  match quad_pos with
  | 0%nat => a2b_loop cs 1 n 0 false out
  | 1%nat =>
      a2b_loop cs 2 (n mod 16) 0 false
        (out ++ [byte_of_N (leftchar * 4 + n / 16)])
  | 2%nat =>
      a2b_loop cs 3 (n mod 4) 0 false
        (out ++ [byte_of_N (leftchar * 16 + n / 4)])
  | _ => a2b_loop cs 0 0 0 false (out ++ [byte_of_N (leftchar * 64 + n)])
  end.
Proof.
  intros Hn. cbn [a2b_loop]. now rewrite enc_not_pad, dec_enc by assumption.
Qed.

Lemma a2b_loop_b2a (bs out : bytes) :
  a2b_loop (b2a_base64 bs) 0 0 0 false out = Some (out ++ bs).
Proof.
  revert out. induction bs as [|a|a b|a b c rest IH] using list_ind3;
    intros out.
  - cbn [b2a_base64 a2b_loop]. now rewrite app_nil_r.
  - pose proof (to_N_lt a) as Ba.
    destruct (sextets a a a) as (H1 & H2 & _).
    cbn [b2a_base64]. rewrite !a2b_loop_enc by assumption.
    cbn [a2b_loop]. change (is_pad pad) with true.
    cbn [Nat.leb Nat.add andb].
    now rewrite (byte_of_N_eq _ a) by lia.
  - pose proof (to_N_lt a) as Ba. pose proof (to_N_lt b) as Bb.
    destruct (sextets a b b) as (H1 & _ & H2 & H3 & _).
    cbn [b2a_base64]. rewrite !a2b_loop_enc by assumption.
    cbn [a2b_loop]. change (is_pad pad) with true.
    cbn [Nat.leb Nat.add andb].
    rewrite (byte_of_N_eq _ a), (byte_of_N_eq _ b) by lia.
    now rewrite <- app_assoc.
  - pose proof (to_N_lt a) as Ba. pose proof (to_N_lt b) as Bb.
    pose proof (to_N_lt c) as Bc.
    destruct (sextets a b c) as (H1 & _ & H2 & _ & H3 & H4).
    cbn [b2a_base64]. rewrite !a2b_loop_enc by assumption.
    rewrite IH.
    rewrite (byte_of_N_eq _ a), (byte_of_N_eq _ b), (byte_of_N_eq _ c)
      by lia.
    now rewrite <- !app_assoc.
Qed.

(** [binascii.a2b_base64] inverts [binascii.b2a_base64]. *)
Lemma a2b_b2a (bs : bytes) : a2b_base64 (b2a_base64 bs) = Some bs.
Proof.
  unfold a2b_base64.
  destruct (b2a_base64 bs) as [|c cs] eqn:E.
  - apply b2a_base64_nil in E. subst bs. reflexivity.
  - assert (is_pad c = false) as ->.
    { destruct bs as [|a [|b [|c' rest]]]; cbn [b2a_base64] in E;
        try discriminate E; injection E as <- _; apply enc_not_pad;
        apply (sextets a a a). }
    rewrite <- E. apply (a2b_loop_b2a bs []).
Qed.

Lemma length_b2a (bs : bytes) :
  List.length (b2a_base64 bs) = (4 * ((List.length bs + 2) / 3))%nat.
Proof.
  induction bs as [|a|a b|a b c rest IH] using list_ind3; try reflexivity.
  cbn [b2a_base64 List.length]. rewrite IH.
  replace (S (S (S (List.length rest))) + 2)%nat
    with (1 * 3 + (List.length rest + 2))%nat by lia.
  rewrite Nat.div_add_l by lia. lia.
Qed.

Lemma translate_enc (n : N) :
  n < 64 ->
  translate1 alt std (translate1 std alt (enc n)) = enc n /\
  idchar (Byte.to_N (translate1 std alt (enc n))) = true.
Proof.
  intros Hn.
  assert (Byte.eqb (translate1 alt std (translate1 std alt (enc n))) (enc n)
          && idchar (Byte.to_N (translate1 std alt (enc n))) = true) as H.
  { revert n Hn. apply below_64. vm_compute. reflexivity. }
  apply andb_true_iff in H. destruct H as [H1 H2].
  apply byte_eqb_eq in H1. auto.
Qed.

Lemma translate_back_enc (n : N) :
  n < 64 -> translate1 alt std (translate1 std alt (enc n)) = enc n.
Proof. intros Hn. now apply translate_enc. Qed.

(** [b64encode] with the alternative characters emits only the alphabet
    with ["/"] replaced by ["-"], and the pad character. *)
Lemma b64encode_idchar (bs : bytes) :
  Forall (fun c => idchar (Byte.to_N c) = true) (b64encode bs alt).
Proof.
  unfold b64encode, translate. fold std.
  induction bs as [|a|a b|a b c rest IH] using list_ind3.
  - constructor.
  - destruct (sextets a a a) as (H1 & H2 & _).
    cbn [b2a_base64 List.map].
    repeat (constructor; try (now apply translate_enc)).
  - destruct (sextets a b b) as (H1 & _ & H2 & H3 & _).
    cbn [b2a_base64 List.map].
    repeat (constructor; try (now apply translate_enc)).
  - destruct (sextets a b c) as (H1 & _ & H2 & _ & H3 & H4).
    cbn [b2a_base64 List.map].
    repeat (constructor; try (now apply translate_enc)). exact IH.
Qed.

Lemma length_b64encode (bs : bytes) :
  List.length (b64encode bs alt) = (4 * ((List.length bs + 2) / 3))%nat.
Proof. unfold b64encode, translate. now rewrite length_map, length_b2a. Qed.

(** [base64.b64decode(.., altchars, validate=True)] inverts
    [base64.b64encode(.., altchars)]. *)
Lemma b64decode_b64encode (bs : bytes) :
  b64decode_bytes (b64encode bs alt) alt = Ok bs.
Proof.
  unfold b64decode_bytes, b64encode. fold std alt.
  assert (translate alt std (translate std alt (b2a_base64 bs)) = b2a_base64 bs)
    as ->.
  { induction bs as [|a|a b|a b c rest IH] using list_ind3.
    - reflexivity.
    - destruct (sextets a a a) as (H1 & H2 & _).
      cbn [b2a_base64 translate List.map].
      now rewrite !translate_back_enc by assumption.
    - destruct (sextets a b b) as (H1 & _ & H2 & H3 & _).
      cbn [b2a_base64 translate List.map].
      now rewrite !translate_back_enc by assumption.
    - destruct (sextets a b c) as (H1 & _ & H2 & _ & H3 & H4).
      cbn [b2a_base64 translate List.map].
      rewrite !translate_back_enc by assumption.
      unfold translate in IH. now rewrite IH. }
  now rewrite a2b_b2a.
Qed.

End Base64Facts.

(** ** Regular expressions *)

Section ReFacts.
Import Re.

Lemma fullmatch_Empty (s : str) : fullmatch Empty s = false.
Proof. induction s; auto. Qed.

Lemma fullmatch_Alt (r1 r2 : re) (s : str) :
  fullmatch (Alt r1 r2) s = fullmatch r1 s || fullmatch r2 s.
Proof. revert r1 r2. induction s as [|c s IH]; intros; simpl; auto. Qed.

Lemma fullmatch_Cat_Empty (r : re) (s : str) :
  fullmatch (Cat Empty r) s = false.
Proof. induction s; auto. Qed.

Lemma fullmatch_Cat_Eps (r : re) (s : str) :
  fullmatch (Cat Eps r) s = fullmatch r s.
Proof.
  destruct s as [|c s]; [reflexivity|].
  simpl. now rewrite fullmatch_Alt, fullmatch_Cat_Empty.
Qed.

(** [[p]*] matches exactly the strings all of whose characters are in
    the class. *)
Lemma fullmatch_Star_Class (p : N -> bool) (s : str) :
  fullmatch (Star (Class p)) s = forallb p s.
Proof.
  induction s as [|c s IH]; [reflexivity|].
  simpl. destruct (p c).
  - now rewrite fullmatch_Cat_Eps.
  - now rewrite fullmatch_Cat_Empty.
Qed.

Lemma fullmatch_summary (s : str) :
  fullmatch NOTIFICATION_MESSAGE_SUMMARY_RE s = forallb not_control s.
Proof. apply fullmatch_Star_Class. Qed.

Lemma fullmatch_subscription (s : str) :
  fullmatch SUBSCRIPTION_RE s =
  match s with
  | [] => true
  | c :: s' => alnum c && forallb alnum_ s'
  end.
Proof.
  destruct s as [|c s]; [reflexivity|].
  unfold SUBSCRIPTION_RE, Opt. simpl.
  rewrite fullmatch_Alt, fullmatch_Empty, orb_false_r.
  destruct (alnum c).
  - now rewrite fullmatch_Cat_Eps, fullmatch_Star_Class.
  - now rewrite fullmatch_Cat_Empty.
Qed.

End ReFacts.

Lemma alnum_alnum_ (c : N) : alnum c = true -> alnum_ c = true.
Proof. unfold alnum_, alnum. intros ->. reflexivity. Qed.

Lemma subscription_chars (s : str) :
  Re.fullmatch SUBSCRIPTION_RE s = true -> forallb alnum_ s = true.
Proof.
  rewrite fullmatch_subscription. destruct s as [|c s]; [reflexivity|].
  intros H. apply andb_true_iff in H. destruct H as [H1 H2].
  simpl. now rewrite (alnum_alnum_ c H1).
Qed.

Lemma alnum__ascii (c : N) :
  alnum_ c = true -> c < 0x80 /\ c <> 47 /\ c <> 58.
Proof. unfold alnum_, Re.range. cmp; intros; try discriminate; lia. Qed.

Lemma idchar_ascii (c : N) :
  idchar c = true -> c < 0x80 /\ c <> 47 /\ c <> 58.
Proof. unfold idchar, alnum, Re.range. cmp; intros; try discriminate; lia. Qed.

(** ** String operations *)

Lemma str_eqb_eq (a b : str) : str_eqb a b = true <-> a = b.
Proof.
  unfold str_eqb. destruct (list_eq_dec N.eq_dec a b); split;
    congruence.
Qed.

Lemma startswith_spec (s p : str) :
  startswith s p = true <-> exists t, s = p ++ t.
Proof.
  revert s. induction p as [|x p IH]; intros s; simpl.
  - split; [intros _; now exists s | reflexivity].
  - destruct s as [|c s].
    + split; [discriminate | intros [t H]; discriminate].
    + rewrite andb_true_iff, N.eqb_eq, IH. split.
      * intros [-> [t ->]]. eauto.
      * intros [t H]. injection H as -> ->. eauto.
Qed.

Lemma endswith_spec (s p : str) :
  endswith s p = true <-> exists t, s = t ++ p.
Proof.
  unfold endswith. rewrite startswith_spec. split.
  - intros [t H]. exists (rev t).
    rewrite <- (rev_involutive s), H, rev_app_distr. now rewrite rev_involutive.
  - intros [t ->]. exists (rev t). now rewrite rev_app_distr.
Qed.

(** For a one-character needle, [in] is membership of that character. *)
Lemma contains_char (x : N) (s : str) :
  contains [x] s = true <-> In x s.
Proof.
  induction s as [|c s IH]; simpl.
  - split; [discriminate | tauto].
  - rewrite orb_true_iff, andb_true_r, N.eqb_eq, IH. tauto.
Qed.

Lemma contains_char_false (x : N) (s : str) :
  contains [x] s = false <-> ~ In x s.
Proof.
  rewrite <- contains_char. destruct (contains [x] s); split; congruence.
Qed.

(** ** Id parts *)

Lemma to_N_b64encode_ascii (b : bytes) :
  Forall (fun c => Byte.to_N c < 0x80) (b64encode b Base64.alt).
Proof.
  eapply Forall_impl; [|apply b64encode_idchar].
  intros c H. now apply idchar_ascii.
Qed.

(** The encoded part of a string, as a string. *)
Lemma to_id_part_eq (s : str) (b : bytes) :
  Utf8.encode s = Some b ->
  _to_id_part (VStr s) =
    Ok (VStr (id_part b)).
Proof.
  intros E. unfold _to_id_part, encode, decode. rewrite E. simpl.
  change (blit "+-") with Base64.alt.
  now rewrite decode_ascii by apply to_N_b64encode_ascii.
Qed.

Lemma id_part_chars (b : bytes) :
  Forall (fun c => idchar c = true) (id_part b).
Proof. unfold id_part. rewrite Forall_map. apply b64encode_idchar. Qed.

Lemma map_byte_of_N_to_N (b : bytes) :
  List.map byte_of_N (List.map Byte.to_N b) = b.
Proof.
  induction b as [|x b IH]; [reflexivity|].
  simpl. now rewrite byte_of_N_to_N, IH.
Qed.

Lemma from_id_part_eq (s : str) (b : bytes) :
  Utf8.encode s = Some b ->
  _from_id_part (VStr (id_part b)) = Ok (VStr s).
Proof.
  intros E. unfold _from_id_part, b64decode, ascii_bytes, id_part.
  change Base64.b64encode with b64encode.
  assert (forallb (fun c => c <? 0x80)
            (List.map Byte.to_N (b64encode b Base64.alt)) = true) as ->.
  { apply forallb_forall. intros c Hc. apply N.ltb_lt.
    apply in_map_iff in Hc. destruct Hc as (x & <- & Hx).
    pose proof (to_N_b64encode_ascii b) as F.
    rewrite Forall_forall in F. now apply F. }
  rewrite map_byte_of_N_to_N. change (blit "+-") with Base64.alt.
  unfold b64encode. rewrite b64decode_b64encode. simpl.
  unfold decode. now rewrite (decode_encode s b E).
Qed.

(** C2.  For every string of Unicode scalar values, decoding an id part
    gives back the string it was encoded from:
    [_from_id_part(_to_id_part(s)) == s], and neither call raises. *)
Theorem from_id_part_to_id_part (s : str) :
  forallb Utf8.scalar s = true ->
  (p <- _to_id_part (VStr s) ;; _from_id_part p) = Ok (VStr s).
Proof.
  intros H. apply encode_Some_iff in H. destruct H as [b E].
  rewrite (to_id_part_eq s b E). simpl. now apply from_id_part_eq.
Qed.

Lemma from_id_part_to_id_part_witness :
  let s := lit "build:42" ++ [0xE9; 0x20AC; 0x1F600] in
  forallb Utf8.scalar s = true /\
  (p <- _to_id_part (VStr s) ;; _from_id_part p) = Ok (VStr s).
Proof.
  split; [reflexivity|].
  apply from_id_part_to_id_part. reflexivity.
Defined.

(** ** [is_valid_firestore_id] *)

Lemma len_le {A} (l : list A) (n : nat) :
  (len l <=? N.of_nat n) = true <-> (List.length l <= n)%nat.
Proof. unfold len. rewrite N.leb_le. lia. Qed.

Lemma is_valid_firestore_id_str (s : str) :
  is_valid_firestore_id (VStr s) = Ok (firestore_ok s).
Proof.
  unfold is_valid_firestore_id, firestore_ok, encode.
  destruct (Utf8.encode s) as [b|]; [|reflexivity].
  cbn [isinstance and_ bind].
  destruct (len b <=? 1500); [|reflexivity].
  destruct (str_eqb s (lit ".")); [reflexivity|].
  destruct (str_eqb s (lit "..")); [reflexivity|].
  destruct (contains (lit "/") s); [reflexivity|].
  destruct (startswith s (lit "__") && endswith s (lit "__")); reflexivity.
Qed.

Lemma is_valid_firestore_id_other (v : value) :
  isinstance v Cstr = false -> is_valid_firestore_id v = Ok false.
Proof.
  unfold is_valid_firestore_id. intros ->. reflexivity.
Qed.

(** C5.  [is_valid_firestore_id] returns on every value, without raising,
    and returns [True] exactly for a string whose UTF-8 encoding exists and
    has at most 1500 bytes, which is neither ["."] nor [".."], contains no
    ["/"], and does not both start and end with ["__"].  In particular
    ["."], [".."], ["a/b"], ["__x__"] and every string of 1501 bytes give
    [False], ["normal_id"] gives [True], and a string the codec cannot
    encode gives [False]. *)
Theorem is_valid_firestore_id_total :
  (forall v : value,
     exists r, is_valid_firestore_id v = Ok r /\
       (r = true <->
        exists s b, v = VStr s /\ Utf8.encode s = Some b /\
          (List.length b <= 1500)%nat /\
          s <> lit "." /\ s <> lit ".." /\ ~ In 47 s /\
          ~ ((exists t, s = lit "__" ++ t) /\ (exists t, s = t ++ lit "__"))))
  /\ is_valid_firestore_id (VStr (lit ".")) = Ok false
  /\ is_valid_firestore_id (VStr (lit "..")) = Ok false
  /\ is_valid_firestore_id (VStr (lit "a/b")) = Ok false
  /\ is_valid_firestore_id (VStr (lit "__x__")) = Ok false
  /\ is_valid_firestore_id (VStr (lit "normal_id")) = Ok true
  /\ (forall s b, Utf8.encode s = Some b -> List.length b = 1501%nat ->
        is_valid_firestore_id (VStr s) = Ok false)
  /\ (forall s, Utf8.encode s = None ->
        is_valid_firestore_id (VStr s) = Ok false).
Proof.
  assert (forall s b, Utf8.encode s = Some b ->
    ((len b <=? 1500) && negb (str_eqb s (lit "."))
      && negb (str_eqb s (lit "..")) && negb (contains (lit "/") s)
      && negb (startswith s (lit "__") && endswith s (lit "__")) = true
     <-> (List.length b <= 1500)%nat /\
          s <> lit "." /\ s <> lit ".." /\ ~ In 47 s /\
          ~ ((exists t, s = lit "__" ++ t) /\ (exists t, s = t ++ lit "__"))))
    as Hchar.
  { intros s b _. rewrite !andb_true_iff, !negb_true_iff.
    change 1500 with (N.of_nat 1500). rewrite len_le.
    change (lit "/") with [47].
    rewrite contains_char_false.
    rewrite <- startswith_spec, <- endswith_spec.
    rewrite <- andb_true_iff, <- !not_true_iff_false, !str_eqb_eq.
    tauto. }
  repeat split; try reflexivity.
  - intros v. destruct v as [|z|s|b|l|n|m];
      try (exists false; split; [reflexivity|];
           split; [discriminate | intros (s & b' & E & _); discriminate]).
    rewrite is_valid_firestore_id_str. unfold firestore_ok.
    destruct (Utf8.encode s) as [b|] eqn:E.
    + eexists. split; [reflexivity|]. rewrite (Hchar s b E). split.
      * intros H. exists s, b. tauto.
      * intros (s' & b' & [= <-] & E' & H). rewrite E in E'.
        injection E' as <-. exact H.
    + exists false. split; [reflexivity|]. split; [discriminate|].
      intros (s' & b' & [= <-] & E' & _). congruence.
  - intros s b E L. rewrite is_valid_firestore_id_str. unfold firestore_ok.
    rewrite E.
    replace (len b <=? 1500) with false; [reflexivity|].
    symmetry. apply N.leb_gt. unfold len. lia.
  - intros s E. rewrite is_valid_firestore_id_str. unfold firestore_ok.
    now rewrite E.
Qed.

(** ** [NotificationMessage] *)

Lemma forallb_isinstance_str (rs : list str) :
  forallb (fun r => isinstance r Cstr) (List.map VStr rs) = true.
Proof. induction rs; simpl; auto. Qed.

(** What the constructor does when every argument has its expected type. *)
Lemma NotificationMessage_init_strs (rs : list str) (s d i : str) :
  NotificationMessage_init (VList (List.map VStr rs))
    (Some (VStr s)) (Some (VStr d)) (Some (VStr i)) =
  if forallb not_control s then
    match Utf8.encode s with
    | Some b =>
        if len b <=? 256 then
          match Utf8.encode i with
          | Some bi =>
              if len bi <=? 4096 then
                if len bi <=? 256 then
                  Ok (mkNotificationMessage (VList (List.map VStr rs))
                        (VStr s) (VStr d) (VStr i))
                else Raise AssertionError
              else Raise AssertionError
          | None => Raise UnicodeError
          end
        else Raise AssertionError
    | None => Raise UnicodeError
    end
  else Raise AssertionError.
Proof.
  unfold NotificationMessage_init.
  cbn [default isinstance assert_ bind iter re_fullmatch encode].
  rewrite forallb_isinstance_str, fullmatch_summary.
  cbn [assert_ bind].
  destruct (forallb not_control s); [|reflexivity]. cbn [assert_ bind].
  destruct (Utf8.encode s) as [b|]; [|reflexivity]. cbn [bind].
  destruct (len b <=? 256); [|reflexivity]. cbn [assert_ bind].
  destruct (Utf8.encode i) as [bi|]; [|reflexivity]. cbn [bind].
  destruct (len bi <=? 4096); [|reflexivity]. cbn [assert_ bind].
  destruct (len bi <=? 256); reflexivity.
Qed.

Lemma utf8_fits_spec (n : nat) (s : str) :
  utf8_fits n s = true <->
  exists b, Utf8.encode s = Some b /\ (List.length b <= n)%nat.
Proof.
  unfold utf8_fits. destruct (Utf8.encode s) as [b|].
  - rewrite Nat.leb_le. split; [eauto|]. now intros (b' & [= <-] & H).
  - split; [discriminate | intros (b' & H & _); discriminate].
Qed.

Lemma len_leb {A} (l : list A) (n : nat) :
  (len l <=? N.of_nat n) = Nat.leb (List.length l) n.
Proof.
  destruct (Nat.leb_spec (List.length l) n).
  - now apply len_le.
  - apply N.leb_gt. unfold len. lia.
Qed.

(** With the other arguments valid, an [id] that is not a string makes
    the constructor leave through [id.encode()]. *)
Lemma NotificationMessage_init_nonstr_id (rs : list str) (s d : str)
    (i : value) :
  forallb not_control s = true -> utf8_fits 256 s = true ->
  isinstance i Cstr = false ->
  NotificationMessage_init (VList (List.map VStr rs))
    (Some (VStr s)) (Some (VStr d)) (Some i) = Raise AttributeError.
Proof.
  intros Hc Hs Hi. apply utf8_fits_spec in Hs. destruct Hs as (b & Es & Ls).
  unfold NotificationMessage_init.
  cbn [default isinstance assert_ bind iter re_fullmatch encode].
  rewrite forallb_isinstance_str, fullmatch_summary, Hc, Es.
  cbn [assert_ bind]. change 256 with (N.of_nat 256).
  rewrite len_leb, (proj2 (Nat.leb_le _ _) Ls). cbn [assert_ bind].
  destruct i; try discriminate Hi; reflexivity.
Qed.

(** C6.  A non-string [id] does not reach [assert isinstance(id, str)]:
    the length check placed before it calls [id.encode()] and the
    constructor leaves with [AttributeError] instead of the
    [AssertionError] of a failed validation. *)
Theorem NotificationMessage_init_int_id :
  NotificationMessage_init (VList []) None None (Some (VInt 5))
  = Raise AttributeError.
Proof. reflexivity. Qed.

(** C8.  With the other arguments valid, a summary containing a control
    character (U+0000 to U+001F, or U+007F), such as ["\x01bad"], fails
    construction; a summary of exactly 256 bytes of printable ASCII
    succeeds; a summary whose UTF-8 encoding has 257 bytes fails. *)
Theorem summary_boundary (rs : list str) (d i : str) :
  utf8_fits 256 i = true ->
  let make s :=
    NotificationMessage_init (VList (List.map VStr rs))
      (Some (VStr s)) (Some (VStr d)) (Some (VStr i)) in
  (forall s c, In c s -> c <= 0x1F \/ c = 0x7F ->
     make s = Raise AssertionError)
  /\ make (0x01 :: lit "bad") = Raise AssertionError
  /\ (forall s, List.length s = 256%nat ->
        Forall (fun c => 0x20 <= c <= 0x7E) s ->
        make s = Ok (mkNotificationMessage (VList (List.map VStr rs))
                       (VStr s) (VStr d) (VStr i)))
  /\ (forall s b, Utf8.encode s = Some b -> List.length b = 257%nat ->
        make s = Raise AssertionError).
Proof.
  intros Hi. apply utf8_fits_spec in Hi. destruct Hi as (bi & Ei & Li).
  assert (forall s c, In c s -> c <= 0x1F \/ c = 0x7F ->
          forallb not_control s = false) as Hctl.
  { intros s c Hin Hc. apply not_true_iff_false. intros H.
    rewrite forallb_forall in H. specialize (H c Hin). revert H.
    unfold not_control, Re.range. cmp; intros; try discriminate; lia. }
  cbv zeta. repeat split.
  - intros s c Hin Hc. rewrite NotificationMessage_init_strs.
    now rewrite (Hctl s c Hin Hc).
  - rewrite NotificationMessage_init_strs. reflexivity.
  - intros s Ls Hs. rewrite NotificationMessage_init_strs.
    assert (forallb not_control s = true) as ->.
    { apply forallb_forall. intros c Hc. rewrite Forall_forall in Hs.
      specialize (Hs c Hc). unfold not_control, Re.range. cmp; reflexivity. }
    rewrite encode_ascii.
    2:{ eapply Forall_impl; [|exact Hs]. simpl. intros; lia. }
    rewrite Ei.
    change 256 with (N.of_nat 256). change 4096 with (N.of_nat 4096).
    rewrite !len_leb, length_map, Ls.
    rewrite (proj2 (Nat.leb_le _ _) Li).
    replace (Nat.leb (List.length bi) 4096) with true; [reflexivity|].
    symmetry. apply Nat.leb_le. lia.
  - intros s b E L. rewrite NotificationMessage_init_strs, E.
    change 256 with (N.of_nat 256). rewrite len_leb, L.
    destruct (forallb not_control s); reflexivity.
Qed.

Lemma summary_boundary_witness :
  let rs := [lit "maintainer@example.org"] in
  let d := lit "details" in
  let i := lit "daily" in
  let make s :=
    NotificationMessage_init (VList (List.map VStr rs))
      (Some (VStr s)) (Some (VStr d)) (Some (VStr i)) in
  utf8_fits 256 i = true /\
  make (lit "ok" ++ [0x7F]) = Raise AssertionError /\
  make (repeat 0x41 256) =
    Ok (mkNotificationMessage (VList (List.map VStr rs))
          (VStr (repeat 0x41 256)) (VStr d) (VStr i)) /\
  make (repeat 0x41 257) = Raise AssertionError.
Proof.
  cbv zeta. split; [reflexivity|].
  destruct (summary_boundary [lit "maintainer@example.org"]
              (lit "details") (lit "daily") eq_refl) as (H1 & _ & H3 & H4).
  split; [|split].
  - apply (H1 _ 0x7F); [simpl; tauto | right; reflexivity].
  - apply H3; [reflexivity|].
    apply Forall_forall. intros c Hc. apply repeat_spec in Hc. subst c. lia.
  - apply (H4 _ (List.map byte_of_N (repeat 0x41 257))); reflexivity.
Defined.

(** C10.  [summary], [description] and [id] are optional and default to
    the empty string, which satisfies every precondition: for every list
    of strings, the constructor called with the recipients alone succeeds
    and stores [""] in the three attributes. *)
Theorem NotificationMessage_init_defaults (rs : list str) :
  exists m,
    NotificationMessage_init (VList (List.map VStr rs)) None None None = Ok m
    /\ recipients m = VList (List.map VStr rs)
    /\ summary m = VStr (lit "")
    /\ description m = VStr (lit "")
    /\ id m = VStr (lit "").
Proof.
  eexists. split.
  - change (NotificationMessage_init (VList (List.map VStr rs))
              None None None)
      with (NotificationMessage_init (VList (List.map VStr rs))
              (Some (VStr [])) (Some (VStr [])) (Some (VStr []))).
    rewrite NotificationMessage_init_strs. reflexivity.
  - repeat split.
Qed.

(** A successful construction: what the checks established. *)
Ltac step H :=
  match type of H with
  | bind (assert_ ?c) _ = Ok _ =>
      destruct c eqn:?; cbn [assert_ bind] in H; [|discriminate H]
  | bind ?m _ = Ok _ =>
      destruct m eqn:?; cbn [bind] in H; [|discriminate H]
  end.

Lemma NotificationMessage_init_inv (r : value) (s d i : option value)
    (m : NotificationMessage) :
  NotificationMessage_init r s d i = Ok m ->
  exists rs sm dd ii,
    r = VList rs /\ forallb (fun x => isinstance x Cstr) rs = true /\
    default (VStr []) s = VStr sm /\ default (VStr []) d = VStr dd /\
    default (VStr []) i = VStr ii /\
    m = mkNotificationMessage r (VStr sm) (VStr dd) (VStr ii) /\
    forallb not_control sm = true /\
    utf8_fits 256 sm = true /\ utf8_fits 256 ii = true.
Proof.
  unfold NotificationMessage_init. cbv zeta.
  remember (default (VStr []) s) as vs eqn:Es0.
  remember (default (VStr []) d) as vd eqn:Ed0.
  remember (default (VStr []) i) as vi eqn:Ei0.
  intros H.
  destruct r as [| | | |rs| |];
    cbn [isinstance assert_ bind iter] in H; try discriminate H.
  step H.
  destruct vs as [| |sm| | | |];
    cbn [isinstance assert_ bind re_fullmatch encode] in H;
    try discriminate H.
  rewrite fullmatch_summary in H.
  destruct (forallb not_control sm) eqn:Hc; [|discriminate H].
  cbn [assert_ bind] in H.
  destruct (Utf8.encode sm) as [b|] eqn:Es; [|discriminate H].
  cbn [bind] in H. destruct (len b <=? 256) eqn:Ls; [|discriminate H].
  cbn [assert_ bind] in H.
  destruct vd as [| |dd| | | |];
    cbn [isinstance assert_ bind] in H; try discriminate H.
  destruct vi as [| |ii| | | |];
    cbn [isinstance assert_ bind encode] in H; try discriminate H.
  destruct (Utf8.encode ii) as [bi|] eqn:Ei; [|discriminate H].
  cbn [bind] in H. destruct (len bi <=? 4096); [|discriminate H].
  cbn [assert_ bind] in H.
  destruct (len bi <=? 256) eqn:Li; [|discriminate H].
  cbn [assert_ bind] in H. injection H as <-.
  exists rs, sm, dd, ii. repeat split; try assumption.
  - unfold utf8_fits. rewrite Es. rewrite <- len_leb. exact Ls.
  - unfold utf8_fits. rewrite Ei. rewrite <- len_leb. exact Li.
Qed.

(** ** [Notification] *)

Section NotificationFacts.
Variable tree : list str.

Lemma existsb_str_eqb (o : str) (l : list str) :
  existsb (str_eqb o) l = true <-> In o l.
Proof.
  rewrite existsb_exists. split.
  - intros (x & Hx & E). apply str_eqb_eq in E. now subst.
  - intros H. exists o. split; [exact H | now apply str_eqb_eq].
Qed.

(** What the constructor does when every argument has its expected type. *)
Lemma Notification_init_strs (o : str) (nd : Node) (s : str)
    (m : NotificationMessage) (i : str) :
  id m = VStr i ->
  Notification_init tree (VStr o) (VNode nd) (VStr s) (VMessage m) =
  if negb (Nat.eqb (List.length o) 0) then
    if existsb (str_eqb o) tree then
      if Re.fullmatch SUBSCRIPTION_RE s then
        match Utf8.encode s with
        | Some b =>
            if len b <=? 64 then
              match Utf8.encode (node_id nd) with
              | Some bo =>
                  match Utf8.encode i with
                  | Some bi =>
                      if firestore_ok (composite s o bo bi) then
                        Ok (mkNotification (VStr o) (VNode nd) (VStr s)
                              (VMessage m) (VStr (composite s o bo bi)))
                      else Raise AssertionError
                  | None => Raise UnicodeError
                  end
              | None => Raise UnicodeError
              end
            else Raise AssertionError
        | None => Raise UnicodeError
        end
      else Raise AssertionError
    else Raise AssertionError
  else Raise AssertionError.
Proof.
  intros Hi. unfold Notification_init.
  cbn [isinstance assert_ bind truthy in_tree re_fullmatch].
  destruct (negb (Nat.eqb (List.length o) 0)); [|reflexivity].
  cbn [assert_ bind].
  destruct (existsb (str_eqb o) tree); [|reflexivity]. cbn [assert_ bind].
  destruct (Re.fullmatch SUBSCRIPTION_RE s); [|reflexivity].
  cbn [assert_ bind]. unfold encode at 1.
  destruct (Utf8.encode s) as [b|]; [|reflexivity]. cbn [bind].
  destruct (len b <=? 64); [|reflexivity].
  cbn [assert_ bind add attr_id]. rewrite Hi.
  destruct (Utf8.encode (node_id nd)) as [bo|] eqn:Eo.
  2:{ unfold _to_id_part, encode. now rewrite Eo. }
  rewrite (to_id_part_eq _ _ Eo). cbn [bind add].
  destruct (Utf8.encode i) as [bi|] eqn:Ei.
  2:{ unfold _to_id_part, encode. now rewrite Ei. }
  rewrite (to_id_part_eq _ _ Ei). cbn [bind add].
  replace ((((((s ++ lit ":") ++ o) ++ lit ":") ++ id_part bo) ++ lit ":")
            ++ id_part bi)
    with (composite s o bo bi)
    by (unfold composite; now rewrite <- !app_assoc).
  rewrite is_valid_firestore_id_str. cbn [bind].
  destruct (firestore_ok (composite s o bo bi)); reflexivity.
Qed.

Lemma Notification_init_typed (oln obj sub msg : value) (n : Notification) :
  Notification_init tree oln obj sub msg = Ok n ->
  exists o nd s m i,
    oln = VStr o /\ obj = VNode nd /\ sub = VStr s /\ msg = VMessage m /\
    id m = VStr i.
Proof.
  unfold Notification_init. intros H.
  destruct oln as [| |o| | | |];
    cbn [isinstance assert_ bind] in H; try discriminate H.
  do 3 step H.
  destruct obj as [| | | | |nd|];
    cbn [isinstance assert_ bind] in H; try discriminate H.
  destruct sub as [| |s| | | |];
    cbn [isinstance assert_ bind] in H; try discriminate H.
  do 4 step H.
  destruct msg as [| | | | | |m];
    cbn [isinstance assert_ bind add attr_id] in H; try discriminate H.
  do 4 step H.
  destruct (id m) as [| |i| | | |] eqn:Ei;
    try match goal with
        | E : _to_id_part _ = Ok _ |- _ =>
            cbn [_to_id_part encode bind] in E; discriminate E
        end.
  exists o, nd, s, m, i. auto.
Qed.

(** Every successful construction is of this form. *)
Lemma Notification_init_inv (oln obj sub msg : value) (n : Notification) :
  Notification_init tree oln obj sub msg = Ok n ->
  exists o nd s m i bo bi,
    oln = VStr o /\ obj = VNode nd /\ sub = VStr s /\ msg = VMessage m /\
    id m = VStr i /\
    o <> [] /\ In o tree /\
    Re.fullmatch SUBSCRIPTION_RE s = true /\ utf8_fits 64 s = true /\
    Utf8.encode (node_id nd) = Some bo /\ Utf8.encode i = Some bi /\
    firestore_ok (composite s o bo bi) = true /\
    n = mkNotification oln obj sub msg (VStr (composite s o bo bi)).
Proof.
  intros H.
  destruct (Notification_init_typed _ _ _ _ _ H)
    as (o & nd & s & m & i & -> & -> & -> & -> & Hi).
  rewrite (Notification_init_strs o nd s m i Hi) in H.
  destruct (negb (Nat.eqb (List.length o) 0)) eqn:Ho; [|discriminate H].
  destruct (existsb (str_eqb o) tree) eqn:Ht; [|discriminate H].
  destruct (Re.fullmatch SUBSCRIPTION_RE s) eqn:Hs; [|discriminate H].
  destruct (Utf8.encode s) as [b|] eqn:Es; [|discriminate H].
  destruct (len b <=? 64) eqn:Ls; [|discriminate H].
  destruct (Utf8.encode (node_id nd)) as [bo|] eqn:Eo; [|discriminate H].
  destruct (Utf8.encode i) as [bi|] eqn:Ei; [|discriminate H].
  destruct (firestore_ok (composite s o bo bi)) eqn:Hv; [|discriminate H].
  injection H as <-.
  exists o, nd, s, m, i, bo, bi. repeat split; try assumption; try reflexivity.
  - intros ->. discriminate Ho.
  - now apply existsb_str_eqb.
  - unfold utf8_fits. rewrite Es, <- len_leb. exact Ls.
Qed.

End NotificationFacts.

(** ** The composite id *)

Lemma length_id_part (b : bytes) :
  List.length (id_part b) = (4 * ((List.length b + 2) / 3))%nat.
Proof. unfold id_part. now rewrite length_map, length_b64encode. Qed.

Lemma encode_id_part (b : bytes) :
  Utf8.encode (id_part b) = Some (List.map byte_of_N (id_part b)).
Proof.
  apply encode_ascii. eapply Forall_impl; [|apply id_part_chars].
  intros c H. now apply idchar_ascii.
Qed.

Lemma encode_subscription (s : str) :
  Re.fullmatch SUBSCRIPTION_RE s = true ->
  Utf8.encode s = Some (List.map byte_of_N s).
Proof.
  intros H. apply subscription_chars in H. apply encode_ascii.
  apply Forall_forall. intros c Hc. rewrite forallb_forall in H.
  now apply alnum__ascii, H.
Qed.

(** The UTF-8 length of the composite id, from its four segments. *)
Lemma encode_composite (s o : str) (bl bo bi : bytes) :
  Re.fullmatch SUBSCRIPTION_RE s = true ->
  Utf8.encode o = Some bl ->
  exists b,
    Utf8.encode (composite s o bo bi) = Some b /\
    List.length b =
      (List.length s + List.length bl + 4 * ((List.length bo + 2) / 3)
       + 4 * ((List.length bi + 2) / 3) + 3)%nat.
Proof.
  intros Hs Ho. unfold composite. eexists. split.
  - apply encode_app; [now apply encode_subscription|].
    apply (encode_app (lit ":")); [reflexivity|].
    apply encode_app; [exact Ho|].
    apply (encode_app (lit ":")); [reflexivity|].
    apply encode_app; [apply encode_id_part|].
    apply (encode_app (lit ":")); [reflexivity|].
    apply encode_id_part.
  - rewrite !length_app, !length_map, !length_id_part. simpl. lia.
Qed.


Lemma composite_no_slash (s o : str) (bo bi : bytes) :
  Re.fullmatch SUBSCRIPTION_RE s = true ->
  ~ In 47 o -> ~ In 47 (composite s o bo bi).
Proof.
  intros Hs Ho. unfold composite. rewrite !in_app_iff.
  apply subscription_chars in Hs. rewrite forallb_forall in Hs.
  pose proof (id_part_chars bo) as Co. rewrite Forall_forall in Co.
  pose proof (id_part_chars bi) as Ci. rewrite Forall_forall in Ci.
  intros [H|[H|[H|[H|[H|[H|H]]]]]].
  - apply Hs, alnum__ascii in H. tauto.
  - simpl in H. destruct H as [H|[]]. discriminate H.
  - tauto.
  - simpl in H. destruct H as [H|[]]. discriminate H.
  - apply Co, idchar_ascii in H. tauto.
  - simpl in H. destruct H as [H|[]]. discriminate H.
  - apply Ci, idchar_ascii in H. tauto.
Qed.

Lemma composite_prefix (s o : str) (bo bi : bytes) :
  Re.fullmatch SUBSCRIPTION_RE s = true ->
  startswith (composite s o bo bi) (lit "__") = false.
Proof.
  rewrite fullmatch_subscription. unfold composite.
  destruct s as [|c s]; [reflexivity|].
  intros H. apply andb_true_iff in H. destruct H as [H _].
  cbn [app lit List.map list_ascii_of_string startswith].
  replace (c =? N_of_ascii "_") with false; [reflexivity|].
  symmetry. apply N.eqb_neq. intros ->. discriminate H.
Qed.

Lemma composite_length (s o : str) (bo bi : bytes) :
  (3 <= List.length (composite s o bo bi))%nat.
Proof. unfold composite. rewrite !length_app. simpl. lia. Qed.

(** When the final assertion of [Notification.__init__] holds. *)
Lemma firestore_ok_composite (s o : str) (bl bo bi : bytes) :
  Re.fullmatch SUBSCRIPTION_RE s = true ->
  Utf8.encode o = Some bl ->
  firestore_ok (composite s o bo bi) =
  negb (contains (lit "/") o)
  && Nat.leb (List.length s + List.length bl + 4 * ((List.length bo + 2) / 3)
              + 4 * ((List.length bi + 2) / 3) + 3) 1500.
Proof.
  intros Hs Ho. unfold firestore_ok.
  destruct (encode_composite s o bl bo bi Hs Ho) as (b & -> & L).
  change 1500 with (N.of_nat 1500). rewrite len_leb, L.
  rewrite (composite_prefix s o bo bi Hs). cbn [andb negb].
  pose proof (composite_length s o bo bi) as G.
  assert (str_eqb (composite s o bo bi) (lit ".") = false) as ->.
  { apply not_true_iff_false. rewrite str_eqb_eq. intros E.
    rewrite E in G. simpl in G. lia. }
  assert (str_eqb (composite s o bo bi) (lit "..") = false) as ->.
  { apply not_true_iff_false. rewrite str_eqb_eq. intros E.
    rewrite E in G. simpl in G. lia. }
  rewrite !andb_true_r.
  change (lit "/") with [47].
  destruct (contains [47] o) eqn:Co.
  - apply contains_char in Co.
    assert (contains [47] (composite s o bo bi) = true) as ->.
    { apply contains_char. unfold composite. rewrite !in_app_iff. tauto. }
    now rewrite andb_false_r.
  - apply contains_char_false in Co.
    assert (contains [47] (composite s o bo bi) = false) as ->.
    { apply contains_char_false. now apply composite_no_slash. }
    cbn [negb]. now rewrite andb_true_r.
Qed.


Section CompositeFacts.
Variable tree : list str.

(** With the other arguments accepted, the outcome of the constructor for
    a permitted subscription is decided by [composite_fits]. *)
Lemma Notification_init_fits (r : value) (sm d i : option value)
    (m : NotificationMessage) (o : str) (nd : Node) (bl bo : bytes) :
  NotificationMessage_init r sm d i = Ok m ->
  o <> [] -> existsb (str_eqb o) tree = true ->
  Utf8.encode o = Some bl -> Utf8.encode (node_id nd) = Some bo ->
  exists mi bi,
    id m = VStr mi /\ Utf8.encode mi = Some bi /\
    forall s,
      Re.fullmatch SUBSCRIPTION_RE s = true -> utf8_fits 64 s = true ->
      firestore_ok (composite s o bo bi) = composite_fits s o bl bo bi /\
      Notification_init tree (VStr o) (VNode nd) (VStr s) (VMessage m) =
        if composite_fits s o bl bo bi
        then Ok (mkNotification (VStr o) (VNode nd) (VStr s) (VMessage m)
                   (VStr (composite s o bo bi)))
        else Raise AssertionError.
Proof.
  intros Hm Ho Ht El Eo.
  apply NotificationMessage_init_inv in Hm.
  destruct Hm as (rs & sm' & dd & ii & _ & _ & _ & _ & _ & -> & _ & _ & Hi).
  apply utf8_fits_spec in Hi. destruct Hi as (bi & Ei & Li).
  exists ii, bi. split; [reflexivity|]. split; [exact Ei|].
  intros s Hs Hfit.
  apply utf8_fits_spec in Hfit. destruct Hfit as (bs & Es & Ls).
  assert (firestore_ok (composite s o bo bi) = composite_fits s o bl bo bi)
    as Hok by (now apply firestore_ok_composite).
  split; [exact Hok|].
  rewrite (Notification_init_strs tree o nd s
             (mkNotificationMessage r (VStr sm') (VStr dd) (VStr ii))
             ii eq_refl).
  destruct o as [|c o]; [congruence|]. cbn [List.length Nat.eqb negb].
  rewrite Ht, Hs, Es, Eo, Ei, Hok.
  change 64 with (N.of_nat 64). rewrite len_leb.
  now rewrite (proj2 (Nat.leb_le _ _) Ls).
Qed.

End CompositeFacts.

(** C1.  For constructor arguments that satisfy the validation
    preconditions of both constructors, with an object list name and an
    object id that have UTF-8 encodings, the derived composite id
    satisfies [is_valid_firestore_id] exactly when the object list name
    has no ["/"] and
    [len(subscription) + len(obj_list_name) + 4 * ceil(len(obj.id) / 3)
     + 4 * ceil(len(message.id) / 3) + 3 <= 1500] (lengths in UTF-8
    bytes); in that case the final assertion of [Notification.__init__]
    holds and the notification is built with this id, and otherwise the
    final assertion fails. *)
Theorem derived_id_valid (tree : list str) (r : value)
    (sm d i : option value) (m : NotificationMessage)
    (o : str) (nd : Node) (s : str) (bl bo : bytes) :
  NotificationMessage_init r sm d i = Ok m ->
  o <> [] -> existsb (str_eqb o) tree = true ->
  Re.fullmatch SUBSCRIPTION_RE s = true -> utf8_fits 64 s = true ->
  Utf8.encode o = Some bl -> Utf8.encode (node_id nd) = Some bo ->
  exists mi bi,
    id m = VStr mi /\ Utf8.encode mi = Some bi /\
    is_valid_firestore_id (VStr (composite s o bo bi))
      = Ok (composite_fits s o bl bo bi) /\
    Notification_init tree (VStr o) (VNode nd) (VStr s) (VMessage m) =
      if composite_fits s o bl bo bi
      then Ok (mkNotification (VStr o) (VNode nd) (VStr s) (VMessage m)
                 (VStr (composite s o bo bi)))
      else Raise AssertionError.
Proof.
  intros Hm Ho Ht Hs Hfit El Eo.
  destruct (Notification_init_fits tree r sm d i m o nd bl bo
              Hm Ho Ht El Eo) as (mi & bi & Hi & Ei & H).
  destruct (H s Hs Hfit) as [Hok Hn].
  exists mi, bi. split; [exact Hi|]. split; [exact Ei|].
  split; [|exact Hn].
  now rewrite is_valid_firestore_id_str, Hok.
Qed.

Lemma derived_id_valid_witness :
  let tree := [lit ""; lit "checkouts"; lit "builds"; lit "tests"] in
  let nd := mkNode (lit "build:42") (lit "summary") (lit "description") in
  let m := mkNotificationMessage
             (VList [VStr (lit "maintainer@example.org")])
             (VStr (lit "Failed: ")) (VStr []) (VStr (lit "daily")) in
  NotificationMessage_init (VList [VStr (lit "maintainer@example.org")])
    (Some (VStr (lit "Failed: "))) None (Some (VStr (lit "daily"))) = Ok m
  /\ is_valid_firestore_id
       (VStr (lit "build_fail:builds:YnVpbGQ6NDI=:ZGFpbHk=")) = Ok true
  /\ Notification_init tree (VStr (lit "builds")) (VNode nd)
       (VStr (lit "build_fail")) (VMessage m) =
     Ok (mkNotification (VStr (lit "builds")) (VNode nd)
           (VStr (lit "build_fail")) (VMessage m)
           (VStr (lit "build_fail:builds:YnVpbGQ6NDI=:ZGFpbHk="))).
Proof.
  cbv zeta.
  destruct (derived_id_valid
              [lit ""; lit "checkouts"; lit "builds"; lit "tests"]
              (VList [VStr (lit "maintainer@example.org")])
              (Some (VStr (lit "Failed: "))) None (Some (VStr (lit "daily")))
              (mkNotificationMessage
                 (VList [VStr (lit "maintainer@example.org")])
                 (VStr (lit "Failed: ")) (VStr []) (VStr (lit "daily")))
              (lit "builds")
              (mkNode (lit "build:42") (lit "summary") (lit "description"))
              (lit "build_fail")
              (blit "builds") (blit "build:42"))
    as (mi & bi & Hi & Ei & Hv & Hn);
    try reflexivity; [discriminate|].
  cbn [id] in Hi. injection Hi as <-.
  vm_compute in Ei. injection Ei as <-.
  split; [reflexivity|]. split; [exact Hv | exact Hn].
Defined.

(** C1, as stated, fails: every listed precondition holds for an empty
    subscription, the object list ["builds"], a default message and an
    object whose id is 1200 letters, yet the derived id has 1609 bytes, is
    rejected by [is_valid_firestore_id], and the final assertion fails. *)
Lemma derived_id_valid_counterexample :
  let tree := [lit ""; lit "checkouts"; lit "builds"; lit "tests"] in
  let nd := mkNode (repeat 0x61 1200) (lit "") (lit "") in
  let m := mkNotificationMessage (VList []) (VStr []) (VStr []) (VStr []) in
  NotificationMessage_init (VList []) None None None = Ok m
  /\ lit "builds" <> [] /\ existsb (str_eqb (lit "builds")) tree = true
  /\ Re.fullmatch SUBSCRIPTION_RE (lit "") = true
  /\ utf8_fits 64 (lit "") = true
  /\ utf8_fits 256 (lit "") = true
  /\ is_valid_firestore_id
       (VStr (lit ":builds:" ++ id_part (List.map byte_of_N (repeat 0x61 1200))
                ++ lit ":" ++ id_part [])) = Ok false
  /\ Notification_init tree (VStr (lit "builds")) (VNode nd) (VStr (lit ""))
       (VMessage m) = Raise AssertionError.
Proof.
  cbv zeta. repeat split; try (vm_compute; reflexivity). discriminate.
Qed.

(** ** Uniqueness of the composite id *)

Lemma app_sep_inj_l {A} (x : A) (a a' r r' : list A) :
  ~ In x a -> ~ In x a' -> a ++ x :: r = a' ++ x :: r' -> a = a' /\ r = r'.
Proof.
  revert a'. induction a as [|y a IH]; intros [|y' a'] Ha Ha' E;
    simpl in *.
  - injection E as <-. auto.
  - injection E as <- _. tauto.
  - injection E as -> _. tauto.
  - injection E as <- E. destruct (IH a') as [-> ->]; auto.
Qed.

Lemma app_sep_inj_r {A} (x : A) (a a' r r' : list A) :
  ~ In x r -> ~ In x r' -> a ++ x :: r = a' ++ x :: r' -> a = a' /\ r = r'.
Proof.
  intros Hr Hr' E. apply (f_equal (@rev A)) in E.
  rewrite !rev_app_distr in E. simpl in E. rewrite <- !app_assoc in E.
  simpl in E.
  apply app_sep_inj_l in E; try (rewrite <- in_rev; assumption).
  destruct E as [E1 E2]. split.
  - now rewrite <- (rev_involutive a), E2, rev_involutive.
  - now rewrite <- (rev_involutive r), E1, rev_involutive.
Qed.

Lemma id_part_no_colon (b : bytes) : ~ In 58 (id_part b).
Proof.
  intros H. pose proof (id_part_chars b) as C. rewrite Forall_forall in C.
  apply C, idchar_ascii in H. tauto.
Qed.

Lemma subscription_no_colon (s : str) :
  Re.fullmatch SUBSCRIPTION_RE s = true -> ~ In 58 s.
Proof.
  intros Hs H. apply subscription_chars in Hs. rewrite forallb_forall in Hs.
  apply Hs, alnum__ascii in H. tauto.
Qed.

Lemma id_part_inj (b b' : bytes) : id_part b = id_part b' -> b = b'.
Proof.
  unfold id_part. intros E. apply (f_equal (List.map byte_of_N)) in E.
  rewrite !map_byte_of_N_to_N in E.
  pose proof (b64decode_b64encode b) as D.
  pose proof (b64decode_b64encode b') as D'.
  rewrite E in D. rewrite D in D'. now injection D'.
Qed.

Lemma encode_inj (s s' : str) (b : bytes) :
  Utf8.encode s = Some b -> Utf8.encode s' = Some b -> s = s'.
Proof.
  intros E E'. apply decode_encode in E, E'. congruence.
Qed.

(** The four segments can be read back from the composite id. *)
Lemma composite_inj (s s' o o' : str) (bo bo' bi bi' : bytes) :
  Re.fullmatch SUBSCRIPTION_RE s = true ->
  Re.fullmatch SUBSCRIPTION_RE s' = true ->
  composite s o bo bi = composite s' o' bo' bi' ->
  s = s' /\ o = o' /\ bo = bo' /\ bi = bi'.
Proof.
  intros Hs Hs'. unfold composite. cbn [lit List.map list_ascii_of_string app].
  change (N_of_ascii ":") with 58. intros E.
  apply app_sep_inj_l in E; try now apply subscription_no_colon.
  destruct E as [-> E]. split; [reflexivity|].
  change (o ++ 58 :: id_part bo ++ 58 :: id_part bi)
    with (o ++ [58] ++ id_part bo ++ 58 :: id_part bi) in E.
  change (o' ++ 58 :: id_part bo' ++ 58 :: id_part bi')
    with (o' ++ [58] ++ id_part bo' ++ 58 :: id_part bi') in E.
  rewrite !app_assoc in E.
  apply app_sep_inj_r in E; try apply id_part_no_colon.
  destruct E as [E Ei]. rewrite <- !app_assoc in E. simpl in E.
  apply app_sep_inj_r in E; try apply id_part_no_colon.
  destruct E as [-> Eo].
  apply id_part_inj in Ei, Eo. auto.
Qed.

(** Two successful constructions with the same derived id were given the
    same subscription, object list name, object id and message id. *)
Lemma Notification_id_inj (tree : list str)
    (oln1 obj1 sub1 msg1 oln2 obj2 sub2 msg2 : value) (n1 n2 : Notification) :
  Notification_init tree oln1 obj1 sub1 msg1 = Ok n1 ->
  Notification_init tree oln2 obj2 sub2 msg2 = Ok n2 ->
  n_id n1 = n_id n2 ->
  sub1 = sub2 /\ oln1 = oln2 /\
  attr_id obj1 = attr_id obj2 /\ attr_id msg1 = attr_id msg2.
Proof.
  intros H1 H2 E.
  apply Notification_init_inv in H1, H2.
  destruct H1 as (o1 & nd1 & s1 & m1 & i1 & bo1 & bi1 & -> & -> & -> & ->
                  & Hi1 & _ & _ & Hs1 & _ & Eo1 & Ei1 & _ & ->).
  destruct H2 as (o2 & nd2 & s2 & m2 & i2 & bo2 & bi2 & -> & -> & -> & ->
                  & Hi2 & _ & _ & Hs2 & _ & Eo2 & Ei2 & _ & ->).
  cbn [n_id] in E. injection E as E.
  apply composite_inj in E; try assumption.
  destruct E as (-> & -> & -> & ->).
  cbn [attr_id]. rewrite Hi1, Hi2.
  rewrite (encode_inj _ _ _ Eo1 Eo2), (encode_inj _ _ _ Ei1 Ei2). auto.
Qed.

(** C3.  Notifications constructed from quadruples (subscription,
    obj_list_name, obj.id, message.id) that differ in some component have
    different derived ids. *)
Theorem id_unique_per_quadruple (tree : list str)
    (oln1 obj1 sub1 msg1 oln2 obj2 sub2 msg2 : value) (n1 n2 : Notification) :
  Notification_init tree oln1 obj1 sub1 msg1 = Ok n1 ->
  Notification_init tree oln2 obj2 sub2 msg2 = Ok n2 ->
  (sub1, oln1, attr_id obj1, attr_id msg1)
    <> (sub2, oln2, attr_id obj2, attr_id msg2) ->
  n_id n1 <> n_id n2.
Proof.
  intros H1 H2 Hne E. apply Hne.
  destruct (Notification_id_inj tree _ _ _ _ _ _ _ _ _ _ H1 H2 E)
    as (-> & -> & -> & ->).
  reflexivity.
Qed.

(** C4.  The derived id is a function of the quadruple alone: two
    constructions with the same subscription, object list name, object id
    and message id give the same id, whatever else the object and the
    message contain. *)
Theorem id_deterministic (tree : list str)
    (oln sub obj1 msg1 obj2 msg2 : value) (n1 n2 : Notification) :
  Notification_init tree oln obj1 sub msg1 = Ok n1 ->
  Notification_init tree oln obj2 sub msg2 = Ok n2 ->
  attr_id obj1 = attr_id obj2 ->
  attr_id msg1 = attr_id msg2 ->
  n_id n1 = n_id n2.
Proof.
  intros H1 H2 Eobj Emsg.
  apply Notification_init_inv in H1, H2.
  destruct H1 as (o1 & nd1 & s1 & m1 & i1 & bo1 & bi1 & -> & -> & -> & ->
                  & Hi1 & _ & _ & _ & _ & Eo1 & Ei1 & _ & ->).
  destruct H2 as (o2 & nd2 & s2 & m2 & i2 & bo2 & bi2 & [= <-] & -> & [= <-]
                  & -> & Hi2 & _ & _ & _ & _ & Eo2 & Ei2 & _ & ->).
  cbn [attr_id] in Eobj, Emsg. rewrite Hi1, Hi2 in Emsg.
  injection Eobj as Eobj. injection Emsg as <-.
  rewrite Eobj, Eo2 in Eo1. injection Eo1 as <-.
  rewrite Ei2 in Ei1. injection Ei1 as <-.
  reflexivity.
Qed.

Lemma id_unique_per_quadruple_witness :
  let tree := [lit "builds"; lit "tests"] in
  let nd := mkNode (lit "build:42") (lit "s") (lit "d") in
  let m := mkNotificationMessage (VList []) (VStr []) (VStr [])
             (VStr (lit "daily")) in
  exists n1 n2,
    Notification_init tree (VStr (lit "builds")) (VNode nd)
      (VStr (lit "a")) (VMessage m) = Ok n1 /\
    Notification_init tree (VStr (lit "builds")) (VNode nd)
      (VStr (lit "b")) (VMessage m) = Ok n2 /\
    n_id n1 <> n_id n2.
Proof.
  cbv zeta.
  destruct (Notification_init _ _ _ (VStr (lit "a")) _) as [n1|e1] eqn:E1;
    [|vm_compute in E1; discriminate E1].
  destruct (Notification_init _ _ _ (VStr (lit "b")) _) as [n2|e2] eqn:E2;
    [|vm_compute in E2; discriminate E2].
  exists n1, n2. split; [reflexivity|]. split; [reflexivity|].
  apply (id_unique_per_quadruple _ _ _ _ _ _ _ _ _ _ _ E1 E2).
  discriminate.
Defined.

Lemma id_deterministic_witness :
  let tree := [lit "builds"; lit "tests"] in
  let nd1 := mkNode (lit "build:42") (lit "passed") (lit "all good") in
  let nd2 := mkNode (lit "build:42") (lit "failed") (lit "see the log") in
  let m1 := mkNotificationMessage (VList []) (VStr (lit "one"))
              (VStr (lit "first")) (VStr (lit "daily")) in
  let m2 := mkNotificationMessage (VList [VStr (lit "dev@example.org")])
              (VStr (lit "two")) (VStr (lit "second")) (VStr (lit "daily")) in
  exists n1 n2,
    Notification_init tree (VStr (lit "builds")) (VNode nd1)
      (VStr (lit "build_fail")) (VMessage m1) = Ok n1 /\
    Notification_init tree (VStr (lit "builds")) (VNode nd2)
      (VStr (lit "build_fail")) (VMessage m2) = Ok n2 /\
    n_id n1 = n_id n2.
Proof.
  cbv zeta.
  destruct (Notification_init _ _ (VNode (mkNode _ (lit "passed") _)) _ _)
    as [n1|e1] eqn:E1; [|vm_compute in E1; discriminate E1].
  destruct (Notification_init _ _ (VNode (mkNode _ (lit "failed") _)) _ _)
    as [n2|e2] eqn:E2; [|vm_compute in E2; discriminate E2].
  exists n1, n2. split; [reflexivity|]. split; [reflexivity|].
  apply (id_deterministic _ _ _ _ _ _ _ _ _ E1 E2); reflexivity.
Defined.

(** ** Boundaries of the subscription name *)

(** C7.  With the other arguments valid and an object list name and object
    id that have UTF-8 encodings: the subscription [""] is accepted exactly
    when the object list name has no ["/"] and
    [len(obj_list_name) + 4 * ceil(len(obj.id) / 3)
     + 4 * ceil(len(message.id) / 3) + 3 <= 1500], and fails the final
    assertion otherwise; ["_bad"] is rejected; ["good_1"] is accepted
    exactly when the name has no ["/"] and that sum plus 6 is at most
    1500; and every subscription whose UTF-8 encoding has 65 bytes is
    rejected. *)
Theorem subscription_boundary (tree : list str) (r : value)
    (sm d i : option value) (m : NotificationMessage)
    (o : str) (nd : Node) (bl bo : bytes) :
  NotificationMessage_init r sm d i = Ok m ->
  o <> [] -> existsb (str_eqb o) tree = true ->
  Utf8.encode o = Some bl -> Utf8.encode (node_id nd) = Some bo ->
  exists mi bi,
    id m = VStr mi /\ Utf8.encode mi = Some bi /\
    let make s :=
      Notification_init tree (VStr o) (VNode nd) (VStr s) (VMessage m) in
    let built s :=
      mkNotification (VStr o) (VNode nd) (VStr s) (VMessage m)
        (VStr (composite s o bo bi)) in
    let room extra :=
      negb (contains (lit "/") o)
      && Nat.leb (extra + List.length bl + 4 * ((List.length bo + 2) / 3)
                  + 4 * ((List.length bi + 2) / 3) + 3) 1500 in
    make (lit "") = (if room 0%nat then Ok (built (lit ""))
                     else Raise AssertionError)
    /\ make (lit "_bad") = Raise AssertionError
    /\ make (lit "good_1") = (if room 6%nat then Ok (built (lit "good_1"))
                              else Raise AssertionError)
    /\ (forall s b, Utf8.encode s = Some b -> List.length b = 65%nat ->
          make s = Raise AssertionError).
Proof.
  intros Hm Ho Ht El Eo. cbv zeta.
  destruct (Notification_init_fits tree r sm d i m o nd bl bo
              Hm Ho Ht El Eo) as (mi & bi & Hi & Ei & H).
  exists mi, bi. split; [exact Hi|]. split; [exact Ei|].
  split; [|split; [|split]].
  - exact (proj2 (H (lit "") eq_refl eq_refl)).
  - rewrite (Notification_init_strs tree o nd _ m mi Hi).
    destruct o as [|c o]; [congruence|]. cbn [List.length Nat.eqb negb].
    rewrite Ht. reflexivity.
  - exact (proj2 (H (lit "good_1") eq_refl eq_refl)).
  - intros s b Es Ls.
    rewrite (Notification_init_strs tree o nd s m mi Hi).
    destruct o as [|c o]; [congruence|]. cbn [List.length Nat.eqb negb].
    rewrite Ht, Es. change 64 with (N.of_nat 64). rewrite len_leb, Ls.
    cbn [Nat.leb]. destruct (Re.fullmatch SUBSCRIPTION_RE s); reflexivity.
Qed.

Lemma subscription_boundary_witness :
  let tree := [lit ""; lit "checkouts"; lit "builds"; lit "tests"] in
  let nd := mkNode (lit "build:42") (lit "summary") (lit "description") in
  let m := mkNotificationMessage (VList []) (VStr []) (VStr []) (VStr []) in
  let make s :=
    Notification_init tree (VStr (lit "builds")) (VNode nd) (VStr s)
      (VMessage m) in
  NotificationMessage_init (VList []) None None None = Ok m
  /\ (exists n, make (lit "") = Ok n)
  /\ make (lit "_bad") = Raise AssertionError
  /\ (exists n, make (lit "good_1") = Ok n)
  /\ make (repeat 0x61 65) = Raise AssertionError.
Proof.
  cbv zeta. split; [reflexivity|].
  destruct (subscription_boundary
              [lit ""; lit "checkouts"; lit "builds"; lit "tests"]
              (VList []) None None None
              (mkNotificationMessage (VList []) (VStr []) (VStr []) (VStr []))
              (lit "builds")
              (mkNode (lit "build:42") (lit "summary") (lit "description"))
              (blit "builds") (blit "build:42"))
    as (mi & bi & Hi & Ei & H0 & H1 & H2 & H3);
    try reflexivity; [discriminate|].
  cbn [id] in Hi. injection Hi as <-.
  vm_compute in Ei. injection Ei as <-.
  split; [eexists; exact H0|]. split; [exact H1|].
  split; [eexists; exact H2|].
  apply (H3 _ (List.map byte_of_N (repeat 0x61 65))); reflexivity.
Defined.

(** C7, as stated, fails: with the object list ["builds"], a default
    message and an object id of 1200 letters, all valid, the subscription
    [""] is rejected by the final assertion; and with an object id of 1116
    letters [""] is accepted but ["good_1"] is not. *)
Lemma subscription_boundary_counterexample :
  let tree := [lit ""; lit "checkouts"; lit "builds"; lit "tests"] in
  let m := mkNotificationMessage (VList []) (VStr []) (VStr []) (VStr []) in
  let make len s :=
    Notification_init tree (VStr (lit "builds"))
      (VNode (mkNode (repeat 0x61 len) (lit "") (lit ""))) (VStr s)
      (VMessage m) in
  NotificationMessage_init (VList []) None None None = Ok m
  /\ existsb (str_eqb (lit "builds")) tree = true
  /\ make 1200%nat (lit "") = Raise AssertionError
  /\ (exists n, make 1116%nat (lit "") = Ok n)
  /\ make 1116%nat (lit "good_1") = Raise AssertionError.
Proof.
  cbv zeta. split; [reflexivity|]. split; [reflexivity|].
  split; [vm_compute; reflexivity|].
  split; [|vm_compute; reflexivity].
  destruct (Notification_init _ _ _ _ _) as [n|e] eqn:E;
    [eauto | vm_compute in E; discriminate E].
Qed.

(** ** Rendering *)

Lemma strs_forallb (l : list value) :
  forallb (fun x => isinstance x Cstr) l = true ->
  exists ss, l = List.map VStr ss /\ strs l = Some ss.
Proof.
  induction l as [|v l IH]; simpl.
  - exists []. auto.
  - destruct v as [| |s| | | |]; try discriminate. intros H.
    destruct (IH H) as (ss & -> & E). exists (s :: ss).
    simpl in *. now rewrite E.
Qed.




(** * Further properties of the module *)

(** ** [NotificationMessage.__init__] *)

Lemma NotificationMessage_init_default (r : value) (s d i : option value) :
  NotificationMessage_init r s d i =
  NotificationMessage_init r (Some (default (VStr []) s))
    (Some (default (VStr []) d)) (Some (default (VStr []) i)).
Proof. reflexivity. Qed.

(** X1.  The constructor succeeds exactly when [recipients] is a list of
    strings, [summary] is a string without control characters whose UTF-8
    encoding has at most 256 bytes, [description] is a string, and [id] is
    a string whose UTF-8 encoding has at most 256 bytes; it then stores
    the four values as given. *)
Theorem NotificationMessage_init_accepts (r : value) (s d i : option value)
    (m : NotificationMessage) :
  NotificationMessage_init r s d i = Ok m <->
  exists rs sm dd ii,
    r = VList (List.map VStr rs) /\
    default (VStr []) s = VStr sm /\ default (VStr []) d = VStr dd /\
    default (VStr []) i = VStr ii /\
    (forall c, In c sm -> 0x1F < c /\ c <> 0x7F) /\
    utf8_fits 256 sm = true /\ utf8_fits 256 ii = true /\
    m = mkNotificationMessage r (VStr sm) (VStr dd) (VStr ii).
Proof.
  assert (forall sm, forallb not_control sm = true <->
                     (forall c, In c sm -> 0x1F < c /\ c <> 0x7F)) as Hnc.
  { intros sm. rewrite forallb_forall. split; intros H c Hc;
      specialize (H c Hc); revert H; unfold not_control, Re.range.
    - cmp; intros; try discriminate; lia.
    - intros [H1 H2]. cmp; reflexivity. }
  split.
  - intros H. apply NotificationMessage_init_inv in H.
    destruct H as (vs & sm & dd & ii & -> & Hrs & Es & Ed & Ei & -> & Hc
                   & Hs & Hi).
    destruct (strs_forallb vs Hrs) as (rs & -> & _).
    exists rs, sm, dd, ii. rewrite <- Hnc. auto 10.
  - intros (rs & sm & dd & ii & -> & Es & Ed & Ei & Hc & Hs & Hi & ->).
    rewrite NotificationMessage_init_default, Es, Ed, Ei.
    rewrite NotificationMessage_init_strs.
    apply Hnc in Hc. rewrite Hc.
    apply utf8_fits_spec in Hs, Hi.
    destruct Hs as (b & -> & Lb). destruct Hi as (bi & -> & Lbi).
    change 256 with (N.of_nat 256). change 4096 with (N.of_nat 4096).
    rewrite !len_leb.
    rewrite (proj2 (Nat.leb_le _ _) Lb), (proj2 (Nat.leb_le _ _) Lbi).
    replace (Nat.leb (List.length bi) 4096) with true; [reflexivity|].
    symmetry. apply Nat.leb_le. lia.
Qed.

(** X2.  The content of [description] is never examined: replacing one
    string description by any other, of any length and encodable or not,
    changes nothing but the stored description. *)
Theorem description_unchecked (r : value) (s i : option value) (d d' : str) :
  NotificationMessage_init r s (Some (VStr d')) i =
  match NotificationMessage_init r s (Some (VStr d)) i with
  | Ok m =>
      Ok (mkNotificationMessage (recipients m) (summary m) (VStr d') (id m))
  | Raise e => Raise e
  end.
Proof.
  unfold NotificationMessage_init. cbv zeta.
  cbn [default isinstance assert_ bind].
  repeat match goal with
         | |- context [bind ?x _] =>
             match x with
             | bind _ _ => fail 1
             | _ => destruct x; cbn [bind]; try reflexivity
             end
         end.
Qed.

(** X3.  A summary, or an id, that is a string but has no UTF-8 encoding
    (it contains a lone surrogate) makes the constructor leave with the
    codec's [UnicodeError], not with a failed assertion. *)
Theorem unencodable_raises_UnicodeError (rs : list str) (s d i : str) :
  forallb not_control s = true ->
  (Utf8.encode s = None \/
   (utf8_fits 256 s = true /\ Utf8.encode i = None)) ->
  NotificationMessage_init (VList (List.map VStr rs))
    (Some (VStr s)) (Some (VStr d)) (Some (VStr i)) = Raise UnicodeError.
Proof.
  intros Hc H. rewrite NotificationMessage_init_strs, Hc.
  destruct H as [-> | [Hs ->]]; [reflexivity|].
  apply utf8_fits_spec in Hs. destruct Hs as (b & -> & Lb).
  change 256 with (N.of_nat 256).
  now rewrite len_leb, (proj2 (Nat.leb_le _ _) Lb).
Qed.

Lemma unencodable_raises_UnicodeError_witness :
  forallb not_control (lit "bad " ++ [0xD800]) = true /\
  Utf8.encode (lit "bad " ++ [0xD800]) = None /\
  NotificationMessage_init (VList (List.map VStr [lit "a@example.org"]))
    (Some (VStr (lit "bad " ++ [0xD800]))) (Some (VStr (lit "text")))
    (Some (VStr (lit "daily"))) = Raise UnicodeError.
Proof.
  split; [reflexivity|]. split; [reflexivity|].
  apply unencodable_raises_UnicodeError; [reflexivity | left; reflexivity].
Defined.

(** ** [Notification._to_id_part] and [Notification._from_id_part] *)

(** X6.  The encoded part of a string whose UTF-8 encoding has [n] bytes
    has exactly [4 * ceil(n / 3)] characters, all of them letters, digits,
    ["+"], ["-"] or ["="]; so it contains neither ["/"] nor [":"]. *)
Theorem to_id_part_alphabet (s : str) (b : bytes) :
  Utf8.encode s = Some b ->
  exists p,
    _to_id_part (VStr s) = Ok (VStr p) /\
    List.length p = (4 * ((List.length b + 2) / 3))%nat /\
    (forall c, In c p ->
       (65 <= c <= 90 \/ 97 <= c <= 122 \/ 48 <= c <= 57
        \/ c = 43 \/ c = 45 \/ c = 61)) /\
    ~ In 47 p /\ ~ In 58 p.
Proof.
  intros E. exists (id_part b). split; [now apply to_id_part_eq|].
  split; [apply length_id_part|].
  pose proof (id_part_chars b) as C. rewrite Forall_forall in C.
  split; [|split].
  - intros c Hc. specialize (C c Hc). revert C.
    unfold idchar, alnum, Re.range. cmp; intros; try discriminate; lia.
  - intros H. apply C, idchar_ascii in H. tauto.
  - apply id_part_no_colon.
Qed.

Lemma to_id_part_alphabet_witness :
  Utf8.encode (lit "build:42/x") = Some (blit "build:42/x") /\
  exists p,
    _to_id_part (VStr (lit "build:42/x")) = Ok (VStr p) /\
    List.length p = 16%nat /\ ~ In 47 p /\ ~ In 58 p.
Proof.
  split; [reflexivity|].
  destruct (to_id_part_alphabet (lit "build:42/x") (blit "build:42/x")
              eq_refl) as (p & H1 & H2 & _ & H3 & H4).
  exists p. auto.
Defined.

(** X7.  Different strings have different encoded parts. *)
Theorem to_id_part_injective (s s' : str) (p : value) :
  _to_id_part (VStr s) = Ok p -> _to_id_part (VStr s') = Ok p -> s = s'.
Proof.
  intros H H'.
  destruct (Utf8.encode s) as [b|] eqn:E.
  2:{ unfold _to_id_part, encode in H. rewrite E in H. discriminate H. }
  destruct (Utf8.encode s') as [b'|] eqn:E'.
  2:{ unfold _to_id_part, encode in H'. rewrite E' in H'. discriminate H'. }
  rewrite (to_id_part_eq s b E) in H.
  rewrite (to_id_part_eq s' b' E') in H'.
  injection H as <-. injection H' as H'.
  apply id_part_inj in H'. subst b'. exact (encode_inj _ _ _ E E').
Qed.

Lemma to_id_part_injective_witness :
  exists p,
    _to_id_part (VStr (lit "daily")) = Ok p /\
    forall s', _to_id_part (VStr s') = Ok p -> lit "daily" = s'.
Proof.
  destruct (_to_id_part (VStr (lit "daily"))) as [p|e] eqn:E;
    [|vm_compute in E; discriminate E].
  exists p. split; [reflexivity|].
  intros s' H. exact (to_id_part_injective _ _ _ E H).
Defined.

(** X8.  [_to_id_part] returns exactly on strings of Unicode scalar
    values; on a string with a lone surrogate it raises [UnicodeError],
    and on a value that is not a string [AttributeError]. *)
Theorem to_id_part_domain (v : value) :
  ((exists p, _to_id_part v = Ok p) <->
   (exists s, v = VStr s /\ forallb Utf8.scalar s = true))
  /\ (forall s, v = VStr s -> forallb Utf8.scalar s = false ->
        _to_id_part v = Raise UnicodeError)
  /\ (isinstance v Cstr = false -> _to_id_part v = Raise AttributeError).
Proof.
  split; [|split].
  - split.
    + intros [p H]. destruct v as [| |s| | | |]; try discriminate H.
      exists s. split; [reflexivity|]. apply encode_Some_iff.
      destruct (Utf8.encode s) as [b|] eqn:E; [eauto|].
      unfold _to_id_part, encode in H. rewrite E in H. discriminate H.
    + intros (s & -> & H). apply encode_Some_iff in H. destruct H as [b E].
      rewrite (to_id_part_eq s b E). eauto.
  - intros s -> H. unfold _to_id_part, encode.
    destruct (Utf8.encode s) as [b|] eqn:E; [|reflexivity].
    assert (forallb Utf8.scalar s = true) as H'
      by (apply encode_Some_iff; eauto).
    congruence.
  - destruct v; try discriminate; reflexivity.
Qed.

(** A successful [binascii.a2b_base64] saw only alphabet characters and
    pad characters. *)
Lemma a2b_loop_chars (cs : bytes) (quad_pos : nat) (leftchar : N)
    (pads : nat) (padding_started : bool) (out b : bytes) :
  Base64.a2b_loop cs quad_pos leftchar pads padding_started out = Some b ->
  Forall (fun c => Base64.dec c <> None \/ Base64.is_pad c = true) cs.
Proof.
  revert quad_pos leftchar pads padding_started out.
  induction cs as [|c cs IH]; intros quad_pos leftchar pads started out H;
    [constructor|].
  cbn [Base64.a2b_loop] in H.
  destruct (Base64.is_pad c) eqn:P.
  - apply Forall_cons; [right; exact P|].
    destruct (Nat.leb 2 quad_pos && Nat.leb 4 (quad_pos + S pads)).
    + destruct cs; [constructor | discriminate H].
    + exact (IH _ _ _ _ _ H).
  - destruct (Base64.dec c) as [v|] eqn:D; [|discriminate H].
    apply Forall_cons; [left; congruence|].
    destruct started; [discriminate H|].
    destruct quad_pos as [|[|[|q]]]; exact (IH _ _ _ _ _ H).
Qed.

Lemma a2b_base64_chars (cs b : bytes) :
  Base64.a2b_base64 cs = Some b ->
  Forall (fun c => Base64.dec c <> None \/ Base64.is_pad c = true) cs.
Proof.
  unfold Base64.a2b_base64. destruct cs as [|c cs]; [constructor|].
  destruct (Base64.is_pad c); [discriminate|]. apply a2b_loop_chars.
Qed.

(** X9.  Decoding is strict: an id part containing any character other
    than a letter, a digit, ["+"], ["-"], ["/"] or ["="] is refused with
    [ValueError] ([binascii.Error] is one). *)
Theorem from_id_part_rejects (t : str) (c : N) :
  In c t -> idchar c = false -> c <> 47 ->
  _from_id_part (VStr t) = Raise ValueError.
Proof.
  intros Hin Hc H47. unfold _from_id_part, b64decode, ascii_bytes.
  destruct (forallb (fun c => c <? 0x80) t) eqn:Ha; [|reflexivity].
  unfold Base64.b64decode_bytes.
  destruct (Base64.a2b_base64 _) as [b|] eqn:E; [|reflexivity].
  exfalso.
  apply a2b_base64_chars in E.
  rewrite Forall_forall in E.
  rewrite forallb_forall in Ha. specialize (Ha c Hin). apply N.ltb_lt in Ha.
  specialize (E (Base64.translate1 (blit "+-") Base64.std (byte_of_N c))).
  assert (In (Base64.translate1 (blit "+-") Base64.std (byte_of_N c))
            (Base64.translate (blit "+-") Base64.std (List.map byte_of_N t)))
    as Hin'.
  { unfold Base64.translate. apply in_map. now apply in_map. }
  specialize (E Hin').
  assert (forall n, n < 128 -> idchar n = false -> n <> 47 ->
            Base64.dec (Base64.translate1 (blit "+-") Base64.std (byte_of_N n))
              = None /\
            Base64.is_pad
              (Base64.translate1 (blit "+-") Base64.std (byte_of_N n))
              = false) as Hbad.
  { clear. intros n Hn.
    assert (forallb (fun n =>
              idchar n || (n =? 47)
              || (match Base64.dec (Base64.translate1 (blit "+-") Base64.std
                                      (byte_of_N n)) with
                  | None => true | Some _ => false end
                  && negb (Base64.is_pad
                             (Base64.translate1 (blit "+-") Base64.std
                                (byte_of_N n)))))
              (List.map N.of_nat (seq 0 128)) = true) as T
      by (vm_compute; reflexivity).
    rewrite forallb_forall in T.
    assert (In n (List.map N.of_nat (seq 0 128))) as Hseq.
    { rewrite <- (N2Nat.id n). apply in_map. apply in_seq. lia. }
    specialize (T n Hseq). cbv beta in T.
    intros Hi H47. rewrite Hi in T. cbn [orb] in T.
    destruct (N.eqb_spec n 47) as [|_]; [contradiction|]. cbn [orb] in T.
    destruct (Base64.dec _); [discriminate T|].
    split; [reflexivity|]. now apply negb_true_iff. }
  destruct (Hbad c Ha Hc H47) as [Hd Hp].
  destruct E as [E|E]; congruence.
Qed.

Lemma from_id_part_rejects_witness :
  In 95 (lit "ZGFp_Hk=") /\ idchar 95 = false /\
  _from_id_part (VStr (lit "ZGFp_Hk=")) = Raise ValueError.
Proof.
  assert (In 95 (lit "ZGFp_Hk=")) as H by (simpl; tauto).
  split; [exact H|]. split; [reflexivity|].
  apply (from_id_part_rejects _ 95 H); [reflexivity | discriminate].
Defined.

(** ** The module-level patterns *)

(** X10.  [SUBSCRIPTION_RE] matches exactly the empty string and the
    strings of ASCII letters, digits and underscores that do not start
    with an underscore; a matching string encodes to as many UTF-8 bytes
    as it has characters. *)
Theorem subscription_pattern (s : str) :
  (Re.fullmatch SUBSCRIPTION_RE s = true <->
   (Forall (fun c => 65 <= c <= 90 \/ 97 <= c <= 122 \/ 48 <= c <= 57
                     \/ c = 95) s
    /\ forall t, s <> 95 :: t))
  /\ (Re.fullmatch SUBSCRIPTION_RE s = true ->
      exists b, Utf8.encode s = Some b /\ List.length b = List.length s).
Proof.
  assert (forall c, alnum_ c = true <->
            (65 <= c <= 90 \/ 97 <= c <= 122 \/ 48 <= c <= 57 \/ c = 95))
    as Hu.
  { intros c. unfold alnum_, Re.range. split.
    - cmp; intros; try discriminate; lia.
    - intros H. cmp; reflexivity. }
  assert (forall c, alnum c = true <-> (alnum_ c = true /\ c <> 95)) as Ha.
  { intros c. unfold alnum_, alnum, Re.range. split.
    - cmp; intros; try discriminate; split; (reflexivity || lia).
    - intros [H1 H2]. revert H1. cmp; intros; try discriminate; reflexivity. }
  split.
  - rewrite fullmatch_subscription. destruct s as [|c s].
    + split; [|reflexivity]. intros _. split; [constructor | discriminate].
    + rewrite andb_true_iff, Ha, forallb_forall. split.
      * intros [[H1 H2] H3]. split.
        -- constructor; [now apply Hu|].
           apply Forall_forall. intros x Hx. now apply Hu, H3.
        -- intros t [= -> _]. congruence.
      * intros [H1 H2]. inversion H1 as [|? ? Hc Hs]; subst.
        rewrite Forall_forall in Hs. repeat split.
        -- now apply Hu.
        -- intros ->. now apply (H2 s).
        -- intros x Hx. now apply Hu, Hs.
  - intros H. rewrite (encode_subscription s H). eexists.
    split; [reflexivity|]. apply length_map.
Qed.

(** X11.  [NOTIFICATION_MESSAGE_SUMMARY_RE] matches exactly the strings
    with no character in U+0000..U+001F and no U+007F; so a tab or a line
    feed anywhere in a summary makes it unacceptable. *)
Theorem summary_pattern (s : str) :
  Re.fullmatch NOTIFICATION_MESSAGE_SUMMARY_RE s = true <->
  Forall (fun c => 0x1F < c /\ c <> 0x7F) s.
Proof.
  rewrite fullmatch_summary, forallb_forall, Forall_forall.
  split; intros H c Hc; specialize (H c Hc); revert H;
    unfold not_control, Re.range.
  - cmp; intros; try discriminate; lia.
  - intros [H1 H2]. cmp; reflexivity.
Qed.

(** ** [Notification.__init__] *)

Lemma encode_composite_segments (s o : str) (bo bi b : bytes) :
  Utf8.encode (composite s o bo bi) = Some b ->
  exists bl, Utf8.encode o = Some bl.
Proof.
  unfold composite. intros H.
  apply encode_app_inv in H. destruct H as (_ & b1 & _ & H & _).
  apply encode_app_inv in H. destruct H as (_ & b2 & _ & H & _).
  apply encode_app_inv in H. destruct H as (bl & _ & H & _). eauto.
Qed.

(** X4.  The constructor succeeds exactly when: the object list name is a
    non-empty string in the schema's tree, without ["/"]; the object is a
    node and the message a [NotificationMessage]; the subscription matches
    [SUBSCRIPTION_RE] and has at most 64 characters; the object id, the
    message id and the object list name have UTF-8 encodings; and the
    subscription, the name and the two encoded ids (four characters for
    every three bytes, rounded up) with their three colons make at most
    1500 bytes.  It then stores its arguments and the composite id. *)
Theorem Notification_init_accepts (tree : list str)
    (oln obj sub msg : value) (n : Notification) :
  Notification_init tree oln obj sub msg = Ok n <->
  exists o nd s m i bl bo bi,
    oln = VStr o /\ obj = VNode nd /\ sub = VStr s /\ msg = VMessage m /\
    id m = VStr i /\
    o <> [] /\ In o tree /\ ~ In 47 o /\
    Re.fullmatch SUBSCRIPTION_RE s = true /\ (List.length s <= 64)%nat /\
    Utf8.encode o = Some bl /\
    Utf8.encode (node_id nd) = Some bo /\ Utf8.encode i = Some bi /\
    (List.length s + List.length bl + 4 * ((List.length bo + 2) / 3)
     + 4 * ((List.length bi + 2) / 3) + 3 <= 1500)%nat /\
    n = mkNotification oln obj sub msg (VStr (composite s o bo bi)).
Proof.
  split.
  - intros H. apply Notification_init_inv in H.
    destruct H as (o & nd & s & m & i & bo & bi & -> & -> & -> & -> & Hi
                   & Ho & Ht & Hs & Hfit & Eo & Ei & Hok & ->).
    assert (exists bl, Utf8.encode o = Some bl) as [bl El].
    { unfold firestore_ok in Hok.
      destruct (Utf8.encode (composite s o bo bi)) as [b|] eqn:E;
        [|discriminate Hok].
      now apply encode_composite_segments in E. }
    rewrite (firestore_ok_composite s o bl bo bi Hs El) in Hok.
    apply andb_true_iff in Hok. destruct Hok as [Hslash Hlen].
    apply negb_true_iff in Hslash. change (lit "/") with [47] in Hslash.
    apply contains_char_false in Hslash. apply Nat.leb_le in Hlen.
    apply utf8_fits_spec in Hfit. destruct Hfit as (b & Es & Ls).
    rewrite (encode_subscription s Hs) in Es. injection Es as <-.
    rewrite length_map in Ls.
    exists o, nd, s, m, i, bl, bo, bi. auto 20.
  - intros (o & nd & s & m & i & bl & bo & bi & -> & -> & -> & -> & Hi & Ho
            & Ht & Hslash & Hs & Ls & El & Eo & Ei & Hlen & ->).
    rewrite (Notification_init_strs tree o nd s m i Hi).
    destruct o as [|c o]; [congruence|]. cbn [List.length Nat.eqb negb].
    rewrite (proj2 (existsb_str_eqb _ _) Ht), Hs.
    rewrite (encode_subscription s Hs), Eo, Ei.
    change 64 with (N.of_nat 64).
    rewrite len_leb, length_map, (proj2 (Nat.leb_le _ _) Ls).
    rewrite (firestore_ok_composite s (c :: o) bl bo bi Hs El).
    apply contains_char_false in Hslash. change [47] with (lit "/") in Hslash.
    rewrite Hslash, (proj2 (Nat.leb_le _ _) Hlen). reflexivity.
Qed.

(** X5.  The id of a constructed notification ends in two colon-free
    segments that [_from_id_part] turns back into [obj.id] and
    [message.id]; before them stand the subscription, which has no colon
    either, and the object list name. *)
Theorem id_segments_decode (tree : list str)
    (oln obj sub msg : value) (n : Notification) :
  Notification_init tree oln obj sub msg = Ok n ->
  exists s o p1 p2,
    sub = VStr s /\ oln = VStr o /\
    n_id n = VStr (s ++ lit ":" ++ o ++ lit ":" ++ p1 ++ lit ":" ++ p2) /\
    ~ In 58 s /\ ~ In 58 p1 /\ ~ In 58 p2 /\
    _from_id_part (VStr p1) = attr_id obj /\
    _from_id_part (VStr p2) = attr_id msg.
Proof.
  intros H. apply Notification_init_inv in H.
  destruct H as (o & nd & s & m & i & bo & bi & -> & -> & -> & -> & Hi
                 & _ & _ & Hs & _ & Eo & Ei & _ & ->).
  exists s, o, (id_part bo), (id_part bi).
  split; [reflexivity|]. split; [reflexivity|]. split; [reflexivity|].
  split; [now apply subscription_no_colon|].
  split; [apply id_part_no_colon|]. split; [apply id_part_no_colon|].
  cbn [attr_id]. rewrite Hi.
  split; now apply from_id_part_eq.
Qed.

Lemma id_segments_decode_witness :
  let tree := [lit "builds"; lit "tests"] in
  let obj := VNode (mkNode (lit "build:42") (lit "s") (lit "d")) in
  let msg := VMessage (mkNotificationMessage (VList []) (VStr [])
                         (VStr []) (VStr (lit "daily"))) in
  exists n p1 p2,
    Notification_init tree (VStr (lit "builds")) obj
      (VStr (lit "build_fail")) msg = Ok n /\
    n_id n = VStr (lit "build_fail:builds:" ++ p1 ++ lit ":" ++ p2) /\
    _from_id_part (VStr p1) = Ok (VStr (lit "build:42")) /\
    _from_id_part (VStr p2) = Ok (VStr (lit "daily")).
Proof.
  cbv zeta.
  destruct (Notification_init _ _ _ _ _) as [n|e] eqn:E;
    [|vm_compute in E; discriminate E].
  destruct (id_segments_decode _ _ _ _ _ _ E)
    as (s & o & p1 & p2 & [= <-] & [= <-] & Hid & _ & _ & _ & H1 & H2).
  exists n, p1, p2. split; [reflexivity|].
  split; [exact Hid|]. split; [exact H1 | exact H2].
Defined.

(** ** [format_exception_stack] *)

Lemma exception_chain_ind (P : exception -> Prop) :
  (forall m, P (Exception m None)) ->
  (forall m e, P e -> P (Exception m (Some e))) ->
  forall e, P e.
Proof.
  intros H1 H2. fix IH 1. intros [m [e|]].
  - apply H2, IH.
  - apply H1.
Qed.

(** [splitlines(True)] only cuts: the lines, put together, are the text. *)
Lemma concat_splitlines_from (n : nat) (text cur : str) :
  (List.length text <= n)%nat ->
  List.concat (splitlines_from cur text) = cur ++ text.
Proof.
  revert text cur. induction n as [|n IH]; intros text cur Hn.
  - destruct text; [|simpl in Hn; lia].
    destruct cur; simpl; now rewrite ?app_nil_r.
  - destruct text as [|c text].
    + destruct cur; simpl; now rewrite ?app_nil_r.
    + cbn [splitlines_from]. simpl in Hn.
      destruct (c =? 13).
      * destruct text as [|d text].
        -- cbn [List.concat splitlines_from]. now rewrite app_nil_r.
        -- destruct (d =? 10); cbn [List.concat].
           ++ rewrite IH by (simpl in Hn; lia). now rewrite <- app_assoc.
           ++ rewrite IH by lia. now rewrite <- app_assoc.
      * destruct (linebreak c); cbn [List.concat].
        -- rewrite IH by lia. now rewrite <- app_assoc.
        -- rewrite IH by lia. now rewrite <- app_assoc.
Qed.

Lemma indent_nil (text : str) : indent text [] = text.
Proof.
  unfold indent, splitlines_keepends.
  rewrite <- (concat_splitlines_from _ text [] (le_n _)) at 2.
  f_equal. rewrite <- (map_id (splitlines_from [] text)) at 2.
  apply map_ext. intros line. now destruct (truthy _).
Qed.

Lemma format_exception_stack_loop_app (e : exception) (string prefix : str) :
  format_exception_stack_loop e string prefix =
  string ++ format_exception_stack_loop e [] prefix.
Proof.
  revert string prefix.
  induction e as [m|m e IH] using exception_chain_ind; intros string prefix.
  - reflexivity.
  - cbn [format_exception_stack_loop app]. rewrite IH.
    rewrite (IH (indent m prefix ++ _)). now rewrite <- !app_assoc.
Qed.

(** X12.  The result starts with [str(exc)] of the outermost exception,
    unindented and unchanged, whatever it contains; nothing follows it
    when there is no context, and [":\n"] follows it when there is one. *)
Theorem format_exception_stack_head (message : str)
    (context : option exception) :
  exists rest,
    format_exception_stack (Exception message context) = message ++ rest /\
    (context = None -> rest = []) /\
    (context <> None -> exists r, rest = lit ":" ++ [0x0A] ++ r).
Proof.
  unfold format_exception_stack. cbn [format_exception_stack_loop].
  rewrite indent_nil. destruct context as [e|].
  - rewrite format_exception_stack_loop_app. cbn [app].
    rewrite <- app_assoc.
    eexists. split; [reflexivity|]. split; [discriminate|].
    intros _. eexists. reflexivity.
  - exists []. split; [now rewrite app_nil_r|]. split; [reflexivity|].
    congruence.
Qed.

Lemma splitlines_from_one_line (text cur : str) :
  forallb (fun c => negb (linebreak c)) text = true ->
  cur ++ text <> [] ->
  splitlines_from cur text = [cur ++ text].
Proof.
  revert cur. induction text as [|c text IH]; intros cur H Hne.
  - rewrite app_nil_r in *. destruct cur; [congruence | reflexivity].
  - cbn [forallb] in H. apply andb_true_iff in H. destruct H as [Hc H].
    apply negb_true_iff in Hc. cbn [splitlines_from].
    assert ((c =? 13) = false) as ->.
    { destruct (N.eqb_spec c 13) as [->|]; [discriminate Hc | reflexivity]. }
    rewrite Hc, IH; auto.
    + now rewrite <- app_assoc.
    + destruct cur; discriminate.
Qed.

Lemma existsb_lstrip (s : str) :
  existsb (fun c => negb (isspace c)) (lstrip s)
  = existsb (fun c => negb (isspace c)) s.
Proof.
  induction s as [|c s IH]; [reflexivity|].
  cbn [lstrip existsb]. destruct (isspace c) eqn:E; [exact IH|].
  cbn [existsb]. now rewrite E.
Qed.

Lemma existsb_rev {A} (f : A -> bool) (l : list A) :
  existsb f (rev l) = existsb f l.
Proof.
  induction l as [|x l IH]; [reflexivity|].
  cbn [rev existsb]. rewrite existsb_app, IH. cbn [existsb].
  rewrite orb_false_r. apply orb_comm.
Qed.

Lemma lstrip_nonempty (s : str) :
  existsb (fun c => negb (isspace c)) (lstrip s)
  = negb (Nat.eqb (List.length (lstrip s)) 0).
Proof.
  induction s as [|c s IH]; [reflexivity|].
  cbn [lstrip]. destruct (isspace c) eqn:E; [exact IH|].
  cbn [existsb List.length Nat.eqb negb]. now rewrite E.
Qed.

(** [line.strip()] is true exactly when the line has a character that is
    not whitespace. *)
Lemma strip_truthy (s : str) :
  truthy (VStr (strip s)) = existsb (fun c => negb (isspace c)) s.
Proof.
  unfold strip. cbn [truthy]. rewrite length_rev, <- lstrip_nonempty.
  now rewrite existsb_lstrip, existsb_rev, existsb_lstrip.
Qed.

Lemma indent_one_line (text prefix : str) :
  forallb (fun c => negb (linebreak c)) text = true ->
  existsb (fun c => negb (isspace c)) text = true ->
  indent text prefix = prefix ++ text.
Proof.
  intros Hl Hs. unfold indent, splitlines_keepends.
  rewrite splitlines_from_one_line; [|exact Hl|].
  - cbn [List.map List.concat app]. rewrite strip_truthy, Hs.
    now rewrite app_nil_r.
  - destruct text; [discriminate Hs | discriminate].
Qed.

Lemma repeat_snoc2 {A} (x : A) (n : nat) :
  repeat x (2 * n) ++ [x; x] = repeat x (2 * S n).
Proof.
  replace (2 * S n)%nat with (2 * n + 2)%nat by lia.
  now rewrite repeat_app.
Qed.

Lemma format_exception_stack_loop_one_line (e : exception) (depth : nat) :
  Forall (fun m => forallb (fun c => negb (linebreak c)) m = true /\
                   existsb (fun c => negb (isspace c)) m = true)
    (messages e) ->
  format_exception_stack_loop e [] (repeat 0x20 (2 * depth)) =
  join (lit ":" ++ [0x0A]) (indented depth (messages e)).
Proof.
  revert depth.
  induction e as [m|m e IH] using exception_chain_ind; intros depth H.
  - inversion H as [|? ? [Hl Hs] _]; subst.
    cbn [format_exception_stack_loop messages indented join app].
    now apply indent_one_line.
  - inversion H as [|? ? [Hl Hs] Hrest]; subst.
    cbn [format_exception_stack_loop messages indented app].
    rewrite (indent_one_line _ _ Hl Hs).
    rewrite format_exception_stack_loop_app.
    change (lit "  ") with [0x20; 0x20]. rewrite repeat_snoc2.
    rewrite (IH (S depth) Hrest).
    destruct e as [m' c']. cbn [messages indented join].
    now rewrite <- !app_assoc.
Qed.

(** X13.  When every message of the stack is a single line with some
    visible character, the result is the messages joined by [":\n"], the
    message at depth [k] behind [2 * k] spaces. *)
Theorem format_exception_stack_one_line (e : exception) :
  Forall (fun m => forallb (fun c => negb (linebreak c)) m = true /\
                   existsb (fun c => negb (isspace c)) m = true)
    (messages e) ->
  format_exception_stack e =
  join (lit ":" ++ [0x0A]) (indented 0 (messages e)).
Proof.
  intros H. exact (format_exception_stack_loop_one_line e 0 H).
Qed.

Lemma format_exception_stack_one_line_witness :
  let e := Exception (lit "cannot submit report")
             (Some (Exception (lit "connection refused")
                (Some (Exception (lit "timed out") None)))) in
  format_exception_stack e =
  lit "cannot submit report:" ++ [0x0A]
  ++ lit "  connection refused:" ++ [0x0A]
  ++ lit "    timed out".
Proof.
  cbv zeta. rewrite format_exception_stack_one_line; [reflexivity|].
  repeat constructor.
Defined.

(** ** [LOGGING_LEVEL_MAP] *)

Lemma str_eqb_refl (k : str) : str_eqb k k = true.
Proof. now apply str_eqb_eq. Qed.

Lemma str_eqb_neq (a b : str) : str_eqb a b = false <-> a <> b.
Proof.
  rewrite <- str_eqb_eq. destruct (str_eqb a b); split; congruence.
Qed.

Lemma dict_set_notin (d : dict) (k : str) (v : Z) :
  ~ In k (List.map fst d) -> dict_set d k v = d ++ [(k, v)].
Proof.
  induction d as [|[k' v'] d IH]; [reflexivity|].
  cbn [List.map fst In dict_set app]. intros H.
  destruct (str_eqb k' k) eqn:E.
  - apply str_eqb_eq in E. tauto.
  - rewrite IH by tauto. reflexivity.
Qed.

Lemma dict_set_keys_in (d : dict) (k : str) (v : Z) :
  In k (List.map fst d) ->
  List.map fst (dict_set d k v) = List.map fst d.
Proof.
  induction d as [|[k' v'] d IH]; [intros []|].
  cbn [List.map fst In dict_set]. intros H.
  destruct (str_eqb k' k) eqn:E; [reflexivity|].
  apply str_eqb_neq in E. cbn [List.map fst]. rewrite IH; tauto.
Qed.

Lemma dict_set_NoDup (d : dict) (k : str) (v : Z) :
  NoDup (List.map fst d) -> NoDup (List.map fst (dict_set d k v)).
Proof.
  intros H. destruct (in_dec (list_eq_dec N.eq_dec) k (List.map fst d)) as [I|I].
  - now rewrite dict_set_keys_in.
  - rewrite dict_set_notin, map_app by assumption. cbn [List.map fst].
    apply NoDup_app; [exact H | repeat constructor; tauto |].
    intros x Hx [<-|[]]. tauto.
Qed.

(** The items of a dictionary after [d[k'] = v']. *)
Lemma In_dict_set (d : dict) (k k' : str) (v v' : Z) :
  NoDup (List.map fst d) ->
  (In (k, v) (dict_set d k' v') <->
   (k = k' /\ v = v') \/ (k <> k' /\ In (k, v) d)).
Proof.
  induction d as [|[k0 v0] d IH]; cbn [List.map fst dict_set In].
  - intros _. split.
    + intros [[= <- <-]|[]]. auto.
    + intros [[-> ->]|[_ []]]. auto.
  - intros H. inversion H as [|? ? Hn Hd]; subst.
    destruct (str_eqb k0 k') eqn:E.
    + apply str_eqb_eq in E. subst k0. cbn [In]. split.
      * intros [[= <- <-]|Hin]; [auto|]. right. split; [|auto].
        intros ->. apply Hn. now apply (in_map fst) in Hin.
      * intros [[-> ->]|[Hk [[= <- <-]|Hin]]]; auto. congruence.
    + apply str_eqb_neq in E. cbn [In]. rewrite (IH Hd). split.
      * intros [[= <- <-]|[H1|[H1 H2]]]; auto.
      * intros [H1|[H1 [[= <- <-]|H2]]]; auto.
Qed.

Lemma dict_fold_NoDup (items : list (str * Z)) (d : dict) :
  NoDup (List.map fst d) ->
  NoDup (List.map fst
           (fold_left (fun d kv => dict_set d (fst kv) (snd kv)) items d)).
Proof.
  revert d. induction items as [|[k v] items IH]; intros d H; [exact H|].
  cbn [fold_left fst snd]. apply IH. now apply dict_set_NoDup.
Qed.

(** Items with distinct keys make a dictionary with exactly those items,
    in their order. *)
Lemma dict_fold_distinct (items : list (str * Z)) (d : dict) :
  NoDup (List.map fst (d ++ items)) ->
  fold_left (fun d kv => dict_set d (fst kv) (snd kv)) items d = d ++ items.
Proof.
  revert d. induction items as [|[k v] items IH]; intros d H.
  - now rewrite app_nil_r.
  - cbn [fold_left fst snd].
    assert (~ In k (List.map fst d)) as Hk.
    { rewrite map_app in H. cbn [List.map fst] in H.
      apply NoDup_remove_2 in H. rewrite in_app_iff in H. tauto. }
    rewrite dict_set_notin by exact Hk.
    rewrite IH; rewrite <- app_assoc; [reflexivity | exact H].
Qed.

Lemma dict_get_In (d : dict) (k : str) (v : Z) :
  NoDup (List.map fst d) -> (dict_get d k = Some v <-> In (k, v) d).
Proof.
  induction d as [|[k0 v0] d IH]; cbn [List.map fst dict_get In].
  - intros _. split; [discriminate | tauto].
  - intros H. inversion H as [|? ? Hn Hd]; subst.
    destruct (str_eqb k0 k) eqn:E.
    + apply str_eqb_eq in E. subst k0. split.
      * intros [= ->]. auto.
      * intros [[= ->]|Hin]; [reflexivity|].
        apply (in_map fst) in Hin. tauto.
    + apply str_eqb_neq in E. rewrite (IH Hd). split; [auto|].
      intros [[= -> ->]|Hin]; [congruence | exact Hin].
Qed.

Lemma fold_left_max (l : list Z) (x : Z) :
  (x <= fold_left Z.max l x)%Z /\
  (forall y, In y l -> (y <= fold_left Z.max l x)%Z) /\
  In (fold_left Z.max l x) (x :: l).
Proof.
  revert x. induction l as [|a l IH]; intros x; cbn [fold_left].
  - repeat split; [lia | intros y [] | left; reflexivity].
  - destruct (IH (Z.max x a)) as (H1 & H2 & H3). repeat split.
    + lia.
    + intros y [<-|Hy]; [lia | auto].
    + destruct H3 as [H3|H3]; [|right; right; exact H3].
      rewrite <- H3. destruct (Z.max_spec x a) as [[_ ->]|[_ ->]];
        [right; left | left]; reflexivity.
Qed.

Lemma max_spec (l : list Z) (m : Z) :
  max_ l = Ok m -> In m l /\ forall y, In y l -> (y <= m)%Z.
Proof.
  destruct l as [|x l]; [discriminate|]. intros [= <-].
  destruct (fold_left_max l x) as (H1 & H2 & H3).
  split; [exact H3|]. intros y [<-|Hy]; auto.
Qed.

Lemma insert_desc_perm (x : str * Z) (l : list (str * Z)) :
  Permutation (insert_desc x l) (x :: l).
Proof.
  induction l as [|y l IH]; [reflexivity|].
  cbn [insert_desc]. destruct (snd x <? snd y)%Z; [|reflexivity].
  rewrite IH. apply perm_swap.
Qed.

Lemma sorted_desc_perm (l : list (str * Z)) : Permutation (sorted_desc l) l.
Proof.
  induction l as [|x l IH]; [reflexivity|].
  cbn [sorted_desc fold_right]. fold (sorted_desc l).
  rewrite insert_desc_perm. now constructor.
Qed.

Lemma insert_desc_sorted (x : str * Z) (l : list (str * Z)) :
  StronglySorted (fun a b => (snd b <= snd a)%Z) l ->
  StronglySorted (fun a b => (snd b <= snd a)%Z) (insert_desc x l).
Proof.
  induction l as [|y l IH]; intros H.
  - repeat constructor.
  - cbn [insert_desc]. inversion H as [|? ? Hl Hy]; subst.
    destruct (Z.ltb_spec (snd x) (snd y)).
    + constructor; [now apply IH|].
      apply (Permutation_Forall (Permutation_sym (insert_desc_perm x l))).
      constructor; [lia | exact Hy].
    + constructor; [exact H|]. constructor; [exact H0|].
      eapply Forall_impl; [|exact Hy]. cbv beta. intros; lia.
Qed.

Lemma sorted_desc_sorted (l : list (str * Z)) :
  StronglySorted (fun a b => (snd b <= snd a)%Z) (sorted_desc l).
Proof.
  induction l as [|x l IH]; [constructor|].
  cbn [sorted_desc fold_right]. now apply insert_desc_sorted.
Qed.

Section LoggingFacts.
Variable isalpha isupper : str -> bool.
Variable logging_dict : list (str * value).

(** What the first comprehension keeps. *)
Lemma In_level_items (k : str) (z : Z) :
  In (k, z) (level_items isalpha isupper logging_dict) <->
  In (k, VInt z) logging_dict /\ isalpha k = true /\ isupper k = true
  /\ z <> 0%Z.
Proof.
  unfold level_items. rewrite in_flat_map. split.
  - intros ([name v] & Hin & H).
    destruct v as [|z'| | | | |].
    2:{ cbn [isinstance_int truthy] in H.
        destruct (isalpha name) eqn:Ea; [|destruct H].
        destruct (isupper name) eqn:Eu; [|destruct H].
        destruct (Z.eqb_spec z' 0); [destruct H|].
        cbn [andb negb] in H. destruct H as [[= <- <-]|[]]. auto. }
    all: destruct (_ && _) in H; destruct H.
  - intros (Hin & Ea & Eu & Hz). exists (k, VInt z). split; [exact Hin|].
    rewrite Ea, Eu. cbn [isinstance_int truthy andb].
    destruct (Z.eqb_spec z 0); [contradiction|]. left. reflexivity.
Qed.

Lemma level_items_keys (l : list (str * value)) (k : str) :
  In k (List.map fst (level_items isalpha isupper l)) ->
  In k (List.map fst l).
Proof.
  intros H. apply in_map_iff in H. destruct H as ([k' z] & <- & H).
  unfold level_items in H. apply in_flat_map in H.
  destruct H as ([name v] & Hin & H).
  destruct (isalpha name && isupper name && isinstance_int v && truthy v);
    [|destruct H].
  destruct v as [|z'| | | | |].
  2:{ destruct H as [[= <- <-]|[]]. apply (in_map fst) in Hin. exact Hin. }
  all: destruct H.
Qed.

Lemma level_items_NoDup (l : list (str * value)) :
  NoDup (List.map fst l) ->
  NoDup (List.map fst (level_items isalpha isupper l)).
Proof.
  induction l as [|[name v] l IH]; [constructor|].
  cbn [List.map fst]. intros H. inversion H as [|? ? Hn Hl]; subst.
  change (level_items isalpha isupper ((name, v) :: l))
    with ((if isalpha name && isupper name && isinstance_int v && truthy v
           then match v with VInt z => [(name, z)] | _ => [] end
           else []) ++ level_items isalpha isupper l).
  destruct (isalpha name && isupper name && isinstance_int v && truthy v);
    [|now apply IH].
  destruct v; try (now apply IH).
  cbn [app List.map fst]. constructor; [|now apply IH].
  intros Hin. apply Hn. now apply level_items_keys.
Qed.

(** The dictionary before and after sorting. *)
Lemma LOGGING_LEVEL_MAP_eq (d : dict) :
  LOGGING_LEVEL_MAP isalpha isupper logging_dict = Ok d ->
  exists top,
    max_ (List.map snd (dict_of_items (level_items isalpha isupper logging_dict))) = Ok top /\
    NoDup (List.map fst (dict_set (dict_of_items (level_items isalpha isupper logging_dict)) (lit "NONE")
                           (top + 1))) /\
    d = sorted_desc (dict_set (dict_of_items (level_items isalpha isupper logging_dict)) (lit "NONE") (top + 1)).
Proof.
  unfold LOGGING_LEVEL_MAP. cbv zeta.
  destruct (max_ (List.map snd (dict_of_items (level_items isalpha isupper logging_dict)))) as [top|e] eqn:E;
    [|discriminate].
  cbn [bind]. intros [= <-]. exists top. split; [reflexivity|].
  assert (NoDup (List.map fst (dict_set (dict_of_items (level_items isalpha isupper logging_dict)) (lit "NONE")
                                 (top + 1)))) as Hnd.
  { apply dict_set_NoDup. apply dict_fold_NoDup. constructor. }
  split; [exact Hnd|].
  unfold dict_of_items at 1. rewrite dict_fold_distinct; [reflexivity|].
  cbn [app].
  apply (Permutation_NoDup
           (Permutation_map fst (Permutation_sym (sorted_desc_perm _)))).
  exact Hnd.
Qed.

(** X14.  In the finished map, ["NONE"] is the first entry and its value
    is strictly greater than every other level: the level that disables
    all logging lies above all the levels taken from [logging]. *)
Theorem logging_level_map_none (d : dict) :
  LOGGING_LEVEL_MAP isalpha isupper logging_dict = Ok d ->
  exists top rest,
    d = (lit "NONE", top) :: rest /\
    dict_get d (lit "NONE") = Some top /\
    forall k v, In (k, v) rest -> k <> lit "NONE" /\ (v < top)%Z.
Proof.
  intros H. destruct (LOGGING_LEVEL_MAP_eq d H) as (top & Hmax & Hnd & ->).
  set (m := dict_of_items (level_items isalpha isupper logging_dict)) in *.
  set (m2 := dict_set m (lit "NONE") (top + 1)) in *.
  assert (NoDup (List.map fst m)) as Hm
    by (apply dict_fold_NoDup; constructor).
  assert (forall k v, In (k, v) m2 ->
            (k = lit "NONE" /\ v = (top + 1)%Z)
            \/ (k <> lit "NONE" /\ (v <= top)%Z)) as Hm2.
  { intros k v Hin. apply (In_dict_set m _ _ _ _ Hm) in Hin.
    destruct Hin as [Hin|[Hk Hin]]; [left; exact Hin|]. right.
    split; [exact Hk|]. apply (max_spec _ _ Hmax).
    now apply (in_map snd) in Hin. }
  assert (In (lit "NONE", (top + 1)%Z) m2) as Hnone
    by (apply (In_dict_set m _ _ _ _ Hm); auto).
  pose proof (sorted_desc_perm m2) as Hp.
  pose proof (sorted_desc_sorted m2) as Hs.
  assert (NoDup (List.map fst (sorted_desc m2))) as Hnd'.
  { apply (Permutation_NoDup
             (Permutation_map fst (Permutation_sym Hp))). exact Hnd. }
  destruct (sorted_desc m2) as [|[k0 v0] rest] eqn:Ed.
  - apply Permutation_nil in Hp. rewrite Hp in Hnone. destruct Hnone.
  - inversion Hs as [|? ? Hrest Hhd]; subst.
    assert (In (k0, v0) m2) as Hh
      by (apply (Permutation_in _ Hp); left; reflexivity).
    assert (k0 = lit "NONE" /\ v0 = (top + 1)%Z) as [-> ->].
    { destruct (Hm2 _ _ Hh) as [Hh'|[Hk Hv]]; [exact Hh'|].
      apply (Permutation_in _ (Permutation_sym Hp)) in Hnone.
      destruct Hnone as [[= -> ->]|Hin]; [auto|].
      rewrite Forall_forall in Hhd. specialize (Hhd _ Hin).
      cbn [snd] in Hhd. lia. }
    exists (top + 1)%Z, rest. split; [reflexivity|].
    split; [cbn [dict_get]; now rewrite str_eqb_refl|].
    intros k v Hin.
    assert (k <> lit "NONE") as Hk.
    { intros ->. cbn [List.map fst] in Hnd'.
      inversion Hnd' as [|? ? Hn _]; subst. apply Hn.
      now apply (in_map fst) in Hin. }
    split; [exact Hk|].
    assert (In (k, v) m2) as Hin'
      by (apply (Permutation_in _ Hp); right; exact Hin).
    destruct (Hm2 _ _ Hin') as [[Hk' _]|[_ Hv]]; [contradiction | lia].
Qed.

(** X15.  The finished map lists its levels from the highest value to the
    lowest, one entry per name. *)
Theorem logging_level_map_sorted (d : dict) :
  LOGGING_LEVEL_MAP isalpha isupper logging_dict = Ok d ->
  StronglySorted (fun a b => (snd b <= snd a)%Z) d /\
  NoDup (List.map fst d).
Proof.
  intros H. destruct (LOGGING_LEVEL_MAP_eq d H) as (top & _ & Hnd & ->).
  split; [apply sorted_desc_sorted|].
  apply (Permutation_NoDup
           (Permutation_map fst (Permutation_sym (sorted_desc_perm _)))).
  exact Hnd.
Qed.

(** X16.  Apart from ["NONE"], the finished map holds exactly the
    attributes of [logging] whose name is alphabetic and upper case and
    whose value is a non-zero integer, each with its value. *)
Theorem logging_level_map_levels (d : dict) (k : str) (v : Z) :
  NoDup (List.map fst logging_dict) ->
  LOGGING_LEVEL_MAP isalpha isupper logging_dict = Ok d ->
  k <> lit "NONE" ->
  (dict_get d k = Some v <->
   In (k, VInt v) logging_dict /\ isalpha k = true /\ isupper k = true
   /\ v <> 0%Z).
Proof.
  intros Hld H Hk.
  destruct (logging_level_map_sorted d H) as [_ Hd].
  destruct (LOGGING_LEVEL_MAP_eq d H) as (top & _ & Hnd & ->).
  rewrite (dict_get_In _ _ _ Hd).
  assert (NoDup (List.map fst (level_items isalpha isupper logging_dict))) as Hi
    by (now apply level_items_NoDup).
  assert (dict_of_items (level_items isalpha isupper logging_dict) = (level_items isalpha isupper logging_dict)) as Em.
  { unfold dict_of_items. now rewrite dict_fold_distinct. }
  rewrite Em in *. rewrite <- In_level_items.
  split.
  - intros Hin. apply (Permutation_in _ (sorted_desc_perm _)) in Hin.
    apply (In_dict_set (level_items isalpha isupper logging_dict) _ _ _ _ Hi) in Hin.
    destruct Hin as [[Hk' _]|[_ Hin]]; [contradiction | exact Hin].
  - intros Hin.
    apply (Permutation_in _ (Permutation_sym (sorted_desc_perm _))).
    apply (In_dict_set (level_items isalpha isupper logging_dict) _ _ _ _ Hi). auto.
Qed.

(** X17.  Building the map raises [ValueError] (from [max] of an empty
    sequence) exactly when [logging] has no qualifying attribute;
    otherwise it succeeds. *)
Theorem logging_level_map_defined :
  (LOGGING_LEVEL_MAP isalpha isupper logging_dict = Raise ValueError <->
   forall k z, In (k, VInt z) logging_dict ->
     isalpha k = true -> isupper k = true -> z = 0%Z)
  /\ ((exists d, LOGGING_LEVEL_MAP isalpha isupper logging_dict = Ok d) <->
      exists k z, In (k, VInt z) logging_dict /\ isalpha k = true
                  /\ isupper k = true /\ z <> 0%Z).
Proof.
  assert (dict_of_items (level_items isalpha isupper logging_dict) = [] <-> (level_items isalpha isupper logging_dict) = []) as Hnil.
  { unfold dict_of_items. split; [|intros ->; reflexivity].
    destruct (level_items isalpha isupper logging_dict) as [|[k v] l]; [reflexivity|]. cbn [fold_left fst snd].
    intros E. exfalso.
    assert (forall (l : list (str * Z)) d, d <> [] ->
              fold_left (fun d kv => dict_set d (fst kv) (snd kv)) l d <> [])
      as Hne.
    { clear. induction l as [|[k v] l IH]; intros d Hd; [exact Hd|].
      cbn [fold_left fst snd]. apply IH.
      destruct d as [|[k0 v0] d]; [congruence|]. cbn [dict_set].
      destruct (str_eqb k0 k); discriminate. }
    apply (Hne l (dict_set [] k v)); [discriminate | exact E]. }
  assert ((level_items isalpha isupper logging_dict) = [] <->
          forall k z, In (k, VInt z) logging_dict ->
            isalpha k = true -> isupper k = true -> z = 0%Z) as Hitems.
  { split.
    - intros E k z Hin Ha Hu. destruct (Z.eq_dec z 0) as [|Hz]; [assumption|].
      assert (In (k, z) (level_items isalpha isupper logging_dict)) as Hi by (apply In_level_items; auto).
      rewrite E in Hi. destruct Hi.
    - intros Hall. destruct (level_items isalpha isupper logging_dict) as [|[k z] l] eqn:E; [reflexivity|].
      assert (In (k, z) (level_items isalpha isupper logging_dict)) as Hi by (rewrite E; left; reflexivity).
      apply In_level_items in Hi. destruct Hi as (Hin & Ha & Hu & Hz).
      exfalso. apply Hz. now apply (Hall k). }
  assert (LOGGING_LEVEL_MAP isalpha isupper logging_dict = Raise ValueError
          <-> (level_items isalpha isupper logging_dict) = []) as Hraise.
  { unfold LOGGING_LEVEL_MAP. cbv zeta. rewrite <- Hnil.
    destruct (dict_of_items (level_items isalpha isupper logging_dict)) as [|[k v] m].
    - split; reflexivity.
    - split; [discriminate | discriminate]. }
  split; [now rewrite Hraise|].
  split.
  - intros [d Hd].
    assert (level_items isalpha isupper logging_dict <> []) as Hne.
    { intros E. apply Hraise in E. congruence. }
    destruct (level_items isalpha isupper logging_dict) as [|[k z] l] eqn:E.
    + now destruct Hne.
    + assert (In (k, z) (level_items isalpha isupper logging_dict)) as Hi by (rewrite E; left; reflexivity).
      apply In_level_items in Hi. exists k, z. exact Hi.
  - intros (k & z & Hi). apply In_level_items in Hi.
    assert (dict_of_items (level_items isalpha isupper logging_dict) <> [])
      as Hne.
    { intros E. apply Hnil in E. rewrite E in Hi. destruct Hi. }
    unfold LOGGING_LEVEL_MAP. cbv zeta.
    destruct (dict_of_items (level_items isalpha isupper logging_dict))
      as [|[k0 v0] m]; [now destruct Hne|].
    cbn [List.map max_ bind]. eauto.
Qed.

End LoggingFacts.

Lemma logging_attributes_map :
  LOGGING_LEVEL_MAP ascii_isalpha ascii_isupper logging_attributes =
  Ok [(lit "NONE", 51%Z); (lit "CRITICAL", 50%Z); (lit "FATAL", 50%Z);
      (lit "ERROR", 40%Z); (lit "WARNING", 30%Z); (lit "WARN", 30%Z);
      (lit "INFO", 20%Z); (lit "DEBUG", 10%Z)].
Proof. vm_compute. reflexivity. Qed.

Lemma logging_level_map_none_witness :
  exists d top rest,
    LOGGING_LEVEL_MAP ascii_isalpha ascii_isupper logging_attributes = Ok d /\
    d = (lit "NONE", top) :: rest /\
    forall k v, In (k, v) rest -> k <> lit "NONE" /\ (v < top)%Z.
Proof.
  destruct (logging_level_map_none ascii_isalpha ascii_isupper
              logging_attributes _ logging_attributes_map)
    as (top & rest & Hd & _ & Hrest).
  eexists. exists top, rest. split; [exact logging_attributes_map|].
  split; [exact Hd | exact Hrest].
Defined.

Lemma logging_level_map_sorted_witness :
  exists d,
    LOGGING_LEVEL_MAP ascii_isalpha ascii_isupper logging_attributes = Ok d /\
    StronglySorted (fun a b => (snd b <= snd a)%Z) d /\
    NoDup (List.map fst d).
Proof.
  eexists. split; [exact logging_attributes_map|].
  exact (logging_level_map_sorted ascii_isalpha ascii_isupper
           logging_attributes _ logging_attributes_map).
Defined.

Lemma logging_level_map_levels_witness :
  NoDup (List.map fst logging_attributes) /\
  exists d,
    LOGGING_LEVEL_MAP ascii_isalpha ascii_isupper logging_attributes = Ok d /\
    dict_get d (lit "WARNING") = Some 30%Z /\
    dict_get d (lit "NOTSET") = None.
Proof.
  assert (NoDup (List.map fst logging_attributes)) as Hnd.
  { replace (List.map fst logging_attributes)
      with (nodup (list_eq_dec N.eq_dec) (List.map fst logging_attributes))
      by (vm_compute; reflexivity).
    apply NoDup_nodup. }
  split; [exact Hnd|].
  eexists. split; [exact logging_attributes_map|]. split.
  - apply (logging_level_map_levels ascii_isalpha ascii_isupper
             logging_attributes _ (lit "WARNING") 30%Z Hnd
             logging_attributes_map); [discriminate|].
    split; [simpl; tauto|]. split; [reflexivity|].
    split; [reflexivity | discriminate].
  - reflexivity.
Defined.
